(** * Bat_Cap: dual-meter battery logger

    A shallow embedding of [Bat_Cap.py].  Python's [float] is IEEE-754
    binary64, which is the primitive type [float] of the prover: [x * y],
    [x + y], [x / y] and [x =? y] below are the hardware operations, and
    the library relates them to the executable specification [SpecFloat]. *)

From Stdlib Require Import ZArith QArith Qabs List Bool Lia Floats.
From Stdlib Require Import Strings.Byte Strings.String Strings.Ascii.
Import ListNotations.

Set Warnings "-inexact-float".
Local Open Scope float_scope.

(** ** Configuration *)

(** [INTERVAL = 1]: the Python int is converted to a float, exactly, when
    it meets a float operand. *)
Definition INTERVAL : float := 1.

(** ** The sampling cycle of [main] *)

(** The four accumulating locals of [main]. [None] is Python's [None]. *)
Record state := mkState {
  cumulative_energy_Wh : float;
  cumulative_capacity_mAh : float;
  last_valid_voltage : option float;
  last_valid_current : option float
}.

(** The locals as [main] initialises them. *)
Definition initial_state : state :=
  mkState 0 0 None None.

(** The warning lines a cycle can print. *)
Inductive warning :=
| StaleVoltage   (* "No new valid voltage reading; using last valid value." *)
| NoVoltage      (* "No voltage reading available." *)
| StaleCurrent   (* "No new valid current reading; using last valid value." *)
| NoCurrent.     (* "No current reading available." *)

(** The row handed to [log_data] (and printed), the timestamp left out:
    it is read from the clock and no computation depends on it. *)
Record sample := mkSample {
  voltage : float;
  current : float;
  power : float;
  energy : float;
  capacity : float
}.

(** Lines 128-129.  After the fallback neither reading is [None], so the
    conditional always takes its first branch. *)
Definition instantaneous_power (voltage_reading current_reading : option float)
  : float :=
  match voltage_reading, current_reading with
  | Some v, Some c => v * c
  | _, _ => nan
  end.

(** Lines 133-136. [power == power] is the IEEE comparison. *)
Definition energy_increment (power : float) : float :=
  if power =? power then (power * INTERVAL) / 3600 else 0.

(** Lines 140-143. *)
Definition capacity_increment (current_reading : float) : float :=
  if current_reading =? current_reading
  then (current_reading * 1000 * INTERVAL) / 3600
  else 0.

(** Lines 103-150: the body of the loop once the two readers have
    returned. [voltage_reading] and [current_reading] are the results of
    [get_valid_reading]. The result is the new locals, the warnings printed
    (in order) and the row logged. *)
Definition cycle (st : state) (voltage_reading current_reading : option float)
  : state * list warning * sample :=
  (* --- Voltage Measurement --- *)
  let '(last_valid_voltage, voltage_reading, wv) :=
    match voltage_reading with
    | Some r => (Some r, r, [])
    | None =>
        match last_valid_voltage st with
        | Some g => (Some g, g, [StaleVoltage])
        | None => (None, nan, [NoVoltage])
        end
    end in
  (* --- Current Measurement --- *)
  let '(last_valid_current, current_reading, wc) :=
    match current_reading with
    | Some r => (Some r, r, [])
    | None =>
        match last_valid_current st with
        | Some g => (Some g, g, [StaleCurrent])
        | None => (None, nan, [NoCurrent])
        end
    end in
  let power := instantaneous_power (Some voltage_reading) (Some current_reading) in
  let cumulative_energy_Wh := cumulative_energy_Wh st + energy_increment power in
  let cumulative_capacity_mAh :=
    cumulative_capacity_mAh st + capacity_increment current_reading in
  (mkState cumulative_energy_Wh cumulative_capacity_mAh
           last_valid_voltage last_valid_current,
   wv ++ wc,
   mkSample voltage_reading current_reading power
            cumulative_energy_Wh cumulative_capacity_mAh).

Definition cycle_state st v c := fst (fst (cycle st v c)).
Definition cycle_warnings st v c := snd (fst (cycle st v c)).
Definition cycle_sample st v c := snd (cycle st v c).

(** Successive cycles over the readings the two readers deliver. *)
Fixpoint run (st : state) (readings : list (option float * option float))
  : state * list (list warning * sample) :=
  match readings with
  | [] => (st, [])
  | (v, c) :: rest =>
      let '(st', w, s) := cycle st v c in
      let '(st'', out) := run st' rest in
      (st'', (w, s) :: out)
  end.


(** ** The world the program runs in

    Wall-clock time is counted in whole microseconds ([time.time()] returns
    seconds as a float; the clock is abstracted to an exact count, so the
    rounding of [time.time() - start_time] is not modelled). *)

Local Open Scope Z_scope.

(** What one call of [ser.readline()] does: block for a while, then hand
    back bytes ([[]] is [b''], nothing arrived before the port's timeout)
    or raise [serial.SerialException]. *)
Inductive readline_result :=
| Line (data : list byte)
| Broken.

Record poll := mkPoll { delay : Z; result : readline_result }.

(** A [serial.Serial] object. [incoming] lists what the coming [readline]
    calls deliver; once it is used up the instrument is silent and every
    [readline] blocks for [port_timeout] and returns [b'']. *)
Record Serial := mkSerial {
  is_open : bool;
  port_timeout : Z;
  incoming : list poll;
  written : list (list byte);
  write_fails : bool;
  close_fails : bool
}.

Inductive channel := Voltage | Current.

(** [ser_voltage] and [ser_current] are [None] while the name is not bound
    (not in [locals()]). *)
Record world := mkWorld {
  now : Z;
  ser_voltage : option Serial;
  ser_current : option Serial
}.

Definition port (ser : channel) (w : world) : option Serial :=
  match ser with Voltage => ser_voltage w | Current => ser_current w end.

Definition set_port (ser : channel) (s : Serial) (w : world) : world :=
  match ser with
  | Voltage => mkWorld (now w) (Some s) (ser_current w)
  | Current => mkWorld (now w) (ser_voltage w) (Some s)
  end.

(** The exceptions the program meets: pyserial's, the one of a name used
    before it is bound, and the one of a file that cannot be written. *)
Inductive exn := SerialException | UnboundLocalError | OSError.

(** The result of running a piece of the program: a value, an exception on
    its way up, or a loop cut off by its iteration bound. *)
Inductive outcome (A : Type) :=
| Return (a : A)
| Raise (e : exn)
| OutOfFuel.
Arguments Return {A} a.
Arguments Raise {A} e.
Arguments OutOfFuel {A}.

Definition io (A : Type) := world -> outcome A * world.

Definition ret {A} (a : A) : io A := fun w => (Return a, w).

Definition bind {A B} (m : io A) (k : A -> io B) : io B :=
  fun w =>
    match m w with
    | (Return a, w') => k a w'
    | (Raise e, w') => (Raise e, w')
    | (OutOfFuel, w') => (OutOfFuel, w')
    end.

Definition raise {A} (e : exn) : io A := fun w => (Raise e, w).

Declare Scope io_scope.
Delimit Scope io_scope with io.
Notation "x <- m ;; k" := (bind m (fun x => k))
  (at level 61, m at next level, right associativity) : io_scope.
Notation "m ;; k" := (bind m (fun _ => k))
  (at level 61, right associativity) : io_scope.
Local Open Scope io_scope.

(** The clock moved, and a port with its pending input, its output or
    its open flag changed. *)
Definition at_time (t : Z) (w : world) : world :=
  mkWorld t (ser_voltage w) (ser_current w).

Definition with_incoming (s : Serial) (ps : list poll) : Serial :=
  mkSerial (is_open s) (port_timeout s) ps (written s)
           (write_fails s) (close_fails s).

Definition with_written (s : Serial) (out : list (list byte)) : Serial :=
  mkSerial (is_open s) (port_timeout s) (incoming s) out
           (write_fails s) (close_fails s).

Definition closed (s : Serial) : Serial :=
  mkSerial false (port_timeout s) (incoming s) (written s)
           (write_fails s) (close_fails s).

Definition update_port (ser : channel) (s : Serial) : io unit :=
  fun w => (Return tt, set_port ser s w).

(** [time.time()] and [time.sleep(d)]. *)
Definition time_time : io Z := fun w => (Return (now w), w).

Definition time_sleep (d : Z) : io unit :=
  fun w => (Return tt, at_time (now w + d) w).

(** The port behind a name, which must be bound and open (pyserial raises
    [PortNotOpenError], a [SerialException], on a closed port). *)
Definition open_port (ser : channel) : io Serial :=
  fun w =>
    match port ser w with
    | None => (Raise UnboundLocalError, w)
    | Some s => if is_open s then (Return s, w) else (Raise SerialException, w)
    end.

(** [ser.readline()]. *)
Definition readline (ser : channel) : io (list byte) :=
  s <- open_port ser ;;
  match incoming s with
  | [] => time_sleep (port_timeout s) ;; ret []
  | p :: rest =>
      time_sleep (delay p) ;;
      update_port ser (with_incoming s rest) ;;
      match result p with
      | Line data => ret data
      | Broken => raise SerialException
      end
  end.

(** [ser.write(data)]. *)
Definition write (ser : channel) (data : list byte) : io unit :=
  s <- open_port ser ;;
  if write_fails s then raise SerialException
  else update_port ser (with_written s (written s ++ [data])).

(** [ser.reset_input_buffer()]: [incoming] is what arrives from now on,
    so nothing of it is dropped. *)
Definition reset_input_buffer (ser : channel) : io unit :=
  _ <- open_port ser ;; ret tt.

(** [ser.close()] (closing a closed port does nothing). *)
Definition close (ser : channel) : io unit :=
  fun w =>
    match port ser w with
    | None => (Raise UnboundLocalError, w)
    | Some s =>
        if negb (is_open s) then (Return tt, w)
        else if close_fails s then (Raise SerialException, w)
        else (Return tt, set_port ser (closed s) w)
    end.

(** ** Configuration, in microseconds *)

(** [TIMEOUT = 1], the read timeout both ports are opened with. *)
Definition TIMEOUT : Z := 1000000.

(** [timeout=0.8], the default window of [get_valid_reading]. *)
Definition default_timeout : Z := 800000.

(** The [time.sleep(0.05)] between two polls that brought nothing. *)
Definition poll_sleep : Z := 50000.

(** [INTERVAL = 1], as a time. *)
Definition INTERVAL_us : Z := 1000000.

(** ** The channel reader and the loop around it *)

Section Acquisition.

(** [float(line.decode().strip())]: [None] when it raises [ValueError]
    ([UnicodeDecodeError] is a [ValueError] too). *)
Variable float_of_line : list byte -> option float.

(** Lines 41-50: the [while] loop of [get_valid_reading], [fuel] bounding
    its iterations. *)
Fixpoint get_valid_reading_loop (fuel : nat) (ser : channel)
  (timeout start_time : Z) : io (option float) :=
  match fuel with
  | O => fun w => (OutOfFuel, w)
  | S fuel =>
      t <- time_time ;;
      if t - start_time <? timeout then
        line <- readline ser ;;
        match line with
        | _ :: _ =>
            match float_of_line line with
            | Some x => ret (Some x)
            | None => get_valid_reading_loop fuel ser timeout start_time
            end
        | [] =>
            time_sleep poll_sleep ;;
            get_valid_reading_loop fuel ser timeout start_time
        end
      else ret None
  end.

(** Iterations that are always enough: one per pending poll, then one per
    [poll_sleep] of the window, and the one that leaves the loop. *)
Definition enough_fuel (ser : channel) (timeout : Z) (w : world) : nat :=
  match port ser w with
  | Some s => List.length (incoming s) + Z.to_nat (timeout / poll_sleep) + 2
  | None => 1
  end.

(** Lines 35-50. *)
Definition get_valid_reading (ser : channel) (timeout : Z) : io (option float) :=
  fun w =>
    (start_time <- time_time ;;
     get_valid_reading_loop (enough_fuel ser timeout w) ser timeout start_time) w.

(** [b":FETCh?\r\n"] *)
Definition FETCH : list byte :=
  list_byte_of_string (":FETCh?" ++ String "013" (String "010" EmptyString))%string.

(** Lines 96-155: one iteration of [while True]. The fallback of lines
    103-111 runs before the current meter is read; it touches only
    locals, so it is folded into [cycle]. The result is what [cycle]
    gives: the new locals, the warnings printed and the row logged. *)
Definition loop_body (st : state) : io (state * list warning * sample) :=
  loop_start <- time_time ;;
  reset_input_buffer Voltage ;;
  write Voltage FETCH ;;
  time_sleep 200000 ;;
  voltage_reading <- get_valid_reading Voltage default_timeout ;;
  reset_input_buffer Current ;;
  write Current FETCH ;;
  time_sleep 200000 ;;
  current_reading <- get_valid_reading Current default_timeout ;;
  t <- time_time ;;
  time_sleep (Z.max 0 (INTERVAL_us - (t - loop_start))) ;;
  ret (cycle st voltage_reading current_reading).


(** A poll that brings nothing usable: an empty line or one that does not
    parse. The loop goes on after it. *)
Definition unusable (p : poll) : bool :=
  match result p with
  | Line [] => true
  | Line line => match float_of_line line with Some _ => false | None => true end
  | Broken => false
  end.

(** The time the loop spends on a poll it goes on after: the read and,
    when nothing came, the sleep. *)
Definition time_spent (p : poll) : Z :=
  delay p + match result p with Line [] => poll_sleep | _ => 0 end.

Definition elapsed (ps : list poll) : Z :=
  fold_right (fun p t => time_spent p + t) 0 ps.

End Acquisition.

(** ** Teardown *)

(** [b":DISP:ENAB 1\r\n"] *)
Definition DISP_ENAB : list byte :=
  list_byte_of_string (":DISP:ENAB 1" ++ String "013" (String "010" EmptyString))%string.

(** ['ser_x' in locals() and ser_x.is_open] *)
Definition bound_and_open (ser : channel) : io bool :=
  fun w =>
    (Return match port ser w with Some s => is_open s | None => false end, w).

(** Lines 161-168: the [finally] block. Nothing in it catches an
    exception. *)
Definition finally_block : io unit :=
  v <- bound_and_open Voltage ;;
  (if v then write Voltage DISP_ENAB ;; close Voltage else ret tt) ;;
  c <- bound_and_open Current ;;
  (if c then write Current DISP_ENAB ;; close Current else ret tt).

(** ** Python's [float(line.decode().strip())] on ASCII lines

    The instruments answer in ASCII. The model follows CPython on every
    line of ASCII bytes: whitespace is stripped, underscores may stand
    between digits, [inf], [infinity] and [nan] are read in any case, and a
    decimal numeral is rounded to the nearest binary64, ties to even. A
    line with a byte above 127 is taken to raise [ValueError], as invalid
    UTF-8 does; Unicode spaces and digits are not modelled. *)

Module PyFloat.

Local Open Scope N_scope.

Definition is_space (c : N) : bool :=
  ((9 <=? c) && (c <=? 13)) || ((28 <=? c) && (c <=? 32)).

Definition is_digit (c : N) : bool := (48 <=? c) && (c <=? 57).

Definition lower (c : N) : N :=
  if (65 <=? c) && (c <=? 90) then c + 32 else c.

(** [bytes.decode()] *)
Definition decode (line : list byte) : option (list N) :=
  let cs := map Byte.to_N line in
  if forallb (fun c => c <? 128) cs then Some cs else None.

Fixpoint lstrip (s : list N) : list N :=
  match s with
  | c :: rest => if is_space c then lstrip rest else s
  | [] => []
  end.

(** [str.strip()] *)
Definition strip (s : list N) : list N := rev (lstrip (rev (lstrip s))).

(** An underscore stands after a digit and before a digit. *)
Fixpoint underscores_ok (prev : N) (s : list N) : bool :=
  match s with
  | [] => negb (prev =? 95)
  | c :: rest =>
      (if c =? 95 then is_digit prev
       else negb (prev =? 95) || is_digit c)
      && underscores_ok c rest
  end.

Definition codes (s : string) : list N := map Byte.to_N (list_byte_of_string s).

Definition same (s : list N) (word : string) : bool :=
  if list_eq_dec N.eq_dec (map lower s) (codes word) then true else false.

(** The leading digits of [s], as a number, how many they are, and what
    follows them. *)
Fixpoint digits (acc : Z) (n : Z) (s : list N) : Z * Z * list N :=
  match s with
  | c :: rest =>
      if is_digit c then digits (10 * acc + Z.of_N (c - 48))%Z (n + 1)%Z rest
      else (acc, n, s)
  | [] => (acc, n, [])
  end.

Definition sign (s : list N) : bool * list N :=
  match s with
  | 43 :: rest => (false, rest)
  | 45 :: rest => (true, rest)
  | _ => (false, s)
  end.

(** [[("e" | "E") [sign] digitpart]] and nothing after it. *)
Definition exponent (s : list N) : option Z :=
  match s with
  | [] => Some 0%Z
  | c :: rest =>
      if lower c =? 101 then
        let '(neg, rest) := sign rest in
        match digits 0 0 rest with
        | (e, n, []) => if (0 <? n)%Z then Some (if neg then - e else e)%Z else None
        | _ => None
        end
      else None
  end.

(** The binary64 nearest to [(-1)^neg * d * 10^k]. *)
Definition round_decimal (neg : bool) (d k : Z) : spec_float :=
  match d with
  | Zpos p =>
      if (0 <=? k)%Z
      then binary_normalize prec emax (cond_Zopp neg (d * 10 ^ k)%Z) 0 false
      else SFdiv prec emax (S754_finite neg p 0)
                           (S754_finite false (Z.to_pos (10 ^ (- k))) 0)
  | _ => S754_zero neg
  end.

(** [[digitpart] "." digitpart | digitpart ["."]], then the exponent. *)
Definition decimal (neg : bool) (s : list N) : option spec_float :=
  let '(i, ni, rest) := digits 0 0 s in
  let '(d, nf, rest) :=
    match rest with
    | 46 :: rest' => digits i 0 rest'
    | _ => (i, 0%Z, rest)
    end in
  if (0 <? ni + nf)%Z then
    match exponent rest with
    | Some e => Some (round_decimal neg d (e - nf))
    | None => None
    end
  else None.

(** [float(s)] for a [str] of ASCII characters. *)
Definition float_of_str (s : list N) : option float :=
  let s := strip s in
  if underscores_ok 0 s then
    let '(neg, body) := sign (filter (fun c => negb (c =? 95)) s) in
    if same body "inf" || same body "infinity"
    then Some (if neg then neg_infinity else infinity)
    else if same body "nan" then Some nan
    else option_map SF2Prim (decimal neg body)
  else None.

(** [float(line.decode().strip())] *)
Definition float_of_line (line : list byte) : option float :=
  match decode line with
  | Some s => float_of_str (strip s)
  | None => None
  end.

End PyFloat.

(** A [bytes] literal, and [b"\r\n"]. *)
Definition bytes (s : string) : list byte := list_byte_of_string s.
Definition CRLF : string := String "013" (String "010" EmptyString).


(** ** The fallback policy, in the specification's words

    [resolve reading last_good] is the effective value, the updated
    [last_good] and the warning, if any. *)

Inductive fallback_warning := StaleValueSubstituted | NoDataAvailable.

Definition resolve (reading last_good : option float)
  : float * option float * option fallback_warning :=
  match reading, last_good with
  | Some r, _ => (r, Some r, None)
  | None, Some g => (g, Some g, Some StaleValueSubstituted)
  | None, None => (nan, None, Some NoDataAvailable)
  end.

Definition effective_value (reading last_good : option float) : float :=
  fst (fst (resolve reading last_good)).

Definition updated_last_good (reading last_good : option float) : option float :=
  snd (fst (resolve reading last_good)).

(** The line printed for a channel's warning. *)
Definition printed (ser : channel) (w : option fallback_warning) : list warning :=
  match w, ser with
  | None, _ => []
  | Some StaleValueSubstituted, Voltage => [StaleVoltage]
  | Some NoDataAvailable, Voltage => [NoVoltage]
  | Some StaleValueSubstituted, Current => [StaleCurrent]
  | Some NoDataAvailable, Current => [NoCurrent]
  end.

(** A reading, then [misses] cycles in which the channel delivers nothing
    (the other channel delivering [others]). *)
Definition voltage_then_misses (r : float) (c0 : option float)
  (others : list (option float)) : list (option float * option float) :=
  (Some r, c0) :: map (fun c => (None, c)) others.

Definition current_then_misses (r : float) (v0 : option float)
  (others : list (option float)) : list (option float * option float) :=
  (v0, Some r) :: map (fun v => (v, None)) others.

(** The rows a run logs. *)
Definition samples (st : state) (readings : list (option float * option float))
  : list sample :=
  map snd (snd (run st readings)).

(** ** Well-formed ports *)

(** No read takes a negative time, nor more than [longest]. *)
Definition reads_within (longest : Z) (s : Serial) : Prop :=
  0 <= port_timeout s <= longest
  /\ Forall (fun p => 0 <= delay p <= longest) (incoming s).

(** A port as [main] opens it, with the answers it will receive. *)
Definition opened (ps : list poll) : Serial :=
  mkSerial true TIMEOUT ps [] false false.

(** Both ports open at time 0, with the answers each will receive. *)
Definition bench (voltage_answers current_answers : list poll) : world :=
  mkWorld 0 (Some (opened voltage_answers)) (Some (opened current_answers)).

(** A slow, noisy answer: nothing for 0.1 s, a stray word, the reading,
    and one more line behind it. *)
Definition noisy_answer : list poll :=
  [ mkPoll 100000 (Line []);
    mkPoll 20000 (Line (bytes "VOLT"));
    mkPoll 30000 (Line (bytes ("+1.234500E+00" ++ CRLF)));
    mkPoll 10000 (Line (bytes "9.9")) ].

(** ** Teardown of one channel, on its own

    What restoring and closing does to a port, and whether it raised:
    nothing when the name is unbound or the port closed; otherwise the
    display command is written and the port closed, unless one of the two
    raises. *)
Definition restore_and_close (s : option Serial) : option Serial * bool :=
  match s with
  | None => (None, false)
  | Some s =>
      if is_open s then
        if write_fails s then (Some s, true)
        else
          let s' := with_written s (written s ++ [DISP_ENAB]) in
          if close_fails s then (Some s', true) else (Some (closed s'), false)
      else (Some s, false)
  end.

(** A voltage meter that has dropped off the bus, the current meter fine. *)
Definition voltage_unplugged : world :=
  mkWorld 0 (Some (mkSerial true TIMEOUT [] [] true false)) (Some (opened [])).

(** The voltage meter answers [nan] once and then falls silent; the
    current meter answers twice. *)
Definition nan_then_silence : world :=
  bench [mkPoll 1000 (Line (bytes ("nan" ++ CRLF)))]
        [mkPoll 1000 (Line (bytes ("+1.000000E-02" ++ CRLF)));
         mkPoll 1000 (Line (bytes ("+1.000000E-02" ++ CRLF)))].

(** ** Order on binary64 *)

(** Zero of either sign, a positive finite number or plus infinity:
    what [0 <= x] says of a specified float. *)
Definition SFnonneg (x : spec_float) : bool := SFleb (S754_zero false) x.




(** A float that is NaN or not below zero. *)
Definition nan_or_nonneg (x : float) : bool := is_nan x || (0 <=? x)%float.

(** A list of floats that starts no lower than [a] and never steps
    down. *)
Fixpoint nondecreasing_from (a : float) (xs : list float) : Prop :=
  match xs with
  | [] => True
  | b :: rest => (a <=? b)%float = true /\ nondecreasing_from b rest
  end.

(** ** Scenarios *)

(** The specification's end-to-end scenario: voltage reads 5.0, nothing,
    5.0; current reads 0.01, 0.01, nothing. *)
Definition end_to_end : list (option float * option float) :=
  [ (Some 5, Some 0.01); (None, Some 0.01); (Some 5, None) ]%float.



(** ** Floats against exact numbers *)

(** The rational a float stands for, if it is finite:
    [(-1)^s * m * 2^e]. *)
Definition to_Q (x : float) : option Q :=
  match Prim2SF x with
  | S754_zero _ => Some 0%Q
  | S754_finite s m e =>
      Some match e with
           | Zneg p => cond_Zopp s (Zpos m) # 2 ^ p
           | _ => inject_Z (cond_Zopp s (Zpos m) * 2 ^ e)
           end
  | _ => None
  end.

(** [x] is finite and within the relative tolerance [tol] of [ref]. *)
Definition within (tol : Q) (x : float) (ref : Q) : bool :=
  match to_Q x with
  | Some q => Qle_bool (Qabs (q - ref)) (tol * Qabs ref)
  | None => false
  end.

(** The relative tolerance of the comparisons: 1e-9. *)
Definition tolerance : Q := 1 # 1000000000.




(** ** Readings over a run *)

(** The last reading a channel has delivered, [last] if it has delivered
    none. *)
Definition last_delivered (last : option float)
  (readings : list (option float)) : option float :=
  fold_left (fun acc r => match r with Some x => Some x | None => acc end)
            readings last.

(** The warnings a run prints, cycle by cycle. *)
Definition warnings (st : state) (readings : list (option float * option float))
  : list (list warning) :=
  map fst (snd (run st readings)).

(** Totals that have turned to NaN: the meters report a current of plus
    infinity, then of minus infinity, at 1 V. *)
Definition poisoned : state :=
  fst (run initial_state
           [ (Some 1, Some infinity); (Some 1, Some neg_infinity) ]%float).

(** ** Instrument setup *)

(** The commands [main] sends besides [FETCH] and [DISP_ENAB]. *)
Definition ECHO_OFF : list byte := bytes ("SYST:COMM:ECHO OFF" ++ CRLF).
Definition IDN : list byte := bytes ("*IDN?" ++ CRLF).
Definition FUNC_VOLT_DC : list byte := bytes (":FUNC VOLT:DC" ++ CRLF).
Definition VOLT_DC_RANG_20 : list byte := bytes (":VOLT:DC:RANG 20" ++ CRLF).
Definition FUNC_CURR_DC : list byte := bytes (":FUNC CURR:DC" ++ CRLF).
Definition CURR_DC_RANG_002 : list byte := bytes (":CURR:DC:RANG 0.02" ++ CRLF).

(** Lines 52-61. *)
Definition setup_instrument (ser : channel)
  (func_command range_command : list byte) : io unit :=
  write ser ECHO_OFF ;;
  time_sleep 300000 ;;
  write ser func_command ;;
  time_sleep 300000 ;;
  write ser range_command ;;
  time_sleep 300000.

(** The other meter. *)
Definition other (ser : channel) : channel :=
  match ser with Voltage => Current | Current => Voltage end.

(** ** The log file

    The files on disk, by name: the lines of the file at a path, [None]
    where there is no file, and whether the path refuses to be opened for
    appending (its directory is missing or may not be written, or the path
    is a directory), which is taken not to change while the program runs.
    A CSV file is the list of its lines: the header line of the six column
    names, or a row of six values. How pandas prints a float is not
    modelled, nor is a write that fails half-way. The
    timestamp is the clock at [datetime.now()], in microseconds, the
    resolution of [%f]. *)
Inductive csv_line :=
| Header
| Row (timestamp : Z) (voltage current power energy capacity : float).

Record files := mkFiles {
  lines_of :> string -> option (list csv_line);
  refused : string -> bool
}.

(** [os.path.exists(filename)]. (At a refused path the answer is of no
    consequence: nothing is written there.) *)
Definition path_exists (filename : string) (fs : files) : bool :=
  match fs filename with Some _ => true | None => false end.

(** The disk once [lines] have gone to the end of the file, which is
    created when missing. *)
Definition appended (filename : string) (lines : list csv_line) (fs : files)
  : files :=
  mkFiles
    (fun name =>
       if String.eqb name filename then
         Some (match fs filename with Some old => old | None => [] end
               ++ lines)
       else fs name)
    (refused fs).

(** [df.to_csv(filename, mode='a', index=False, header=header)] for a
    frame of one row; [None] is the [OSError] of a path that cannot be
    opened, which leaves the disk as it is. *)
Definition to_csv (filename : string) (header : bool) (row : csv_line)
  (fs : files) : option files :=
  if refused fs filename then None
  else Some (appended filename ((if header then [Header] else []) ++ [row]) fs).

(** Lines 29-33. *)
Definition log_data (timestamp : Z) (voltage current power energy capacity : float)
  (filename : string) (fs : files) : option files :=
  to_csv filename (negb (path_exists filename fs))
         (Row timestamp voltage current power energy capacity) fs.

(** [default_filename] *)
Definition default_filename : string := "voltage_current_capacity_log.csv".

(** The row [main] logs for a sample. *)
Definition row_of (r : Z * sample) : csv_line :=
  Row (fst r) (voltage (snd r)) (current (snd r)) (power (snd r))
      (energy (snd r)) (capacity (snd r)).

(** Successive calls of [log_data] with the rows of a run, up to the first
    that raises. *)
Fixpoint log_calls (filename : string) (rows : list (Z * sample)) (fs : files)
  : option files :=
  match rows with
  | [] => Some fs
  | r :: rest =>
      match log_data (fst r) (voltage (snd r)) (current (snd r))
                     (power (snd r)) (energy (snd r)) (capacity (snd r))
                     filename fs with
      | Some fs' => log_calls filename rest fs'
      | None => None
      end
  end.

(** The disk once the rows of a run have been logged, each with the header
    before it when the file was not there. *)
Definition log_rows (filename : string) (rows : list (Z * sample))
  (fs : files) : files :=
  fold_left
    (fun fs r =>
       appended filename
                ((if path_exists filename fs then [] else [Header])
                 ++ [row_of r]) fs)
    rows fs.

(** The timestamps of the rows of a file. *)
Definition timestamps (lines : list csv_line) : list Z :=
  flat_map (fun l => match l with Header => [] | Row t _ _ _ _ _ => [t] end)
           lines.

(** Each timestamp is at least [gap] after the one before, the first at
    least [gap] after [from]. *)
Fixpoint spaced (gap from : Z) (stamps : list Z) : Prop :=
  match stamps with
  | [] => True
  | t :: rest => from + gap <= t /\ spaced gap t rest
  end.

(** ** The loop of [main], with its log *)

Section Logging.

Variable float_of_line : list byte -> option float.

(** Lines 99-102, and 114-117: a meter is asked for its reading. *)
Definition measure (ser : channel) : io (option float) :=
  reset_input_buffer ser ;;
  write ser FETCH ;;
  time_sleep 200000 ;;
  get_valid_reading float_of_line ser default_timeout.

(** Lines 96-155: one iteration of [while True], which hands on the locals
    and the files. Lines 103-111 and 118-144 are [cycle]. Printing is left
    out. An [OSError] of [log_data] leaves the iteration before the
    pacing sleep. *)
Definition iteration (filename : string) (st : state) (fs : files)
  : io (state * files) :=
  loop_start <- time_time ;;
  voltage_reading <- measure Voltage ;;
  current_reading <- measure Current ;;
  let row := cycle_sample st voltage_reading current_reading in
  timestamp <- time_time ;;
  match log_data timestamp (voltage row) (current row) (power row)
                 (energy row) (capacity row) filename fs with
  | None => raise OSError
  | Some fs' =>
      elapsed_from <- time_time ;;
      time_sleep (Z.max 0 (INTERVAL_us - (elapsed_from - loop_start))) ;;
      ret (cycle_state st voltage_reading current_reading, fs')
  end.

(** The first [n] iterations of [while True]. An exception leaves the loop
    with the files as the completed iterations have left them: whatever
    raises in an iteration comes before its call of [log_data], or is the
    [OSError] of that call, which has written nothing. *)
Fixpoint main_loop (n : nat) (filename : string) (st : state) (fs : files)
  (w : world) : outcome state * files * world :=
  match n with
  | O => (Return st, fs, w)
  | S n =>
      match iteration filename st fs w with
      | (Return (st', fs'), w') => main_loop n filename st' fs' w'
      | (Raise e, w') => (Raise e, fs, w')
      | (OutOfFuel, w') => (OutOfFuel, fs, w')
      end
  end.

(** What the two readers return in the first [n] iterations, and the
    clock when each pair has been read, as far as both readers return:
    the queries, the readers and the pacing sleep of lines 96-117 and
    153-155, without the arithmetic and without the log. *)
Fixpoint delivered (n : nat) (w : world)
  : list (option float * option float * Z) :=
  match n with
  | O => []
  | S n =>
      match measure Voltage w with
      | (Return voltage_reading, w1) =>
          match measure Current w1 with
          | (Return current_reading, w2) =>
              (voltage_reading, current_reading, now w2)
              :: delivered n
                   (at_time
                      (now w2 + Z.max 0 (INTERVAL_us - (now w2 - now w))) w2)
          | _ => []
          end
      | _ => []
      end
  end.

End Logging.

(** The rows of a run from the locals [st] over what the readers have
    delivered, each with its timestamp. *)
Definition rows_of (st : state)
  (trace : list (option float * option float * Z)) : list (Z * sample) :=
  combine (map snd trace) (samples st (map fst trace)).

(** Both ports, where bound, read within [longest]. *)
Definition ports_within (longest : Z) (w : world) : Prop :=
  (forall s, ser_voltage w = Some s -> reads_within longest s)
  /\ (forall s, ser_current w = Some s -> reads_within longest s).

(** The longest an iteration takes when no read takes longer than
    [longest]: twice the 0.2 s after the query and the reader's window run
    over by a read and a sleep, or [INTERVAL]. *)
Definition longest_iteration (longest : Z) : Z :=
  Z.max INTERVAL_us
        (2 * (200000 + (default_timeout - 1 + longest + poll_sleep))).

(** A meter that stays on the bus: its port is open, takes what is
    written to it, and no read of it raises. *)
Definition answers (s : Serial) : Prop :=
  is_open s = true /\ write_fails s = false
  /\ Forall (fun p => result p <> Broken) (incoming s).

(** Both names are bound to such a port, which reads within [longest]. *)
Definition meters_answer (longest : Z) (w : world) : Prop :=
  forall ser, exists s,
    port ser w = Some s /\ answers s /\ reads_within longest s.

(** ** A session on the bench *)

(** A line of text that arrives [d] microseconds into the read. *)
Definition answer (d : Z) (text : string) : poll :=
  mkPoll d (Line (bytes (text ++ CRLF))).

(** Both meters answer each query, the voltage meter after 30 ms and
    the current meter after 40 ms; the cell sags from 1.5 V to 1.4 V at
    10 mA. *)
Definition two_cycles : world :=
  bench [answer 30000 "+1.5E+00"; answer 30000 "+1.4E+00"]
        [answer 40000 "+1.0E-02"; answer 40000 "+1.0E-02"].

(** The same, but the current meter drops off the bus after its first
    answer. *)
Definition current_lost : world :=
  bench [answer 30000 "+1.5E+00"; answer 30000 "+1.4E+00"]
        [answer 40000 "+1.0E-02"; mkPoll 40000 Broken].

(** No file at all, and no path refused. *)
Definition empty_disk : files := mkFiles (fun _ => None) (fun _ => false).

(** A port of the bench after [n] queries, with nothing left to read. *)
Definition queried (n : nat) : Serial :=
  with_written (opened []) (repeat FETCH n).

(** The readings and the times of the rows of [two_cycles]. *)
Definition bench_readings : list (option float * option float) :=
  [ (Some 1.5, Some 0.01); (Some 1.4, Some 0.01) ]%float.

Definition bench_stamps : list Z := [470000; 1470000].

(** ** [main], from the opening of the ports to the teardown *)

(** [bytes.decode()] raises [UnicodeDecodeError] on bytes that are not
    well-formed UTF-8: a byte below 128, or a lead byte with its one, two
    or three continuation bytes, no encoding longer than needed, no
    surrogate, nothing above U+10FFFF. *)
Module Utf8.

Local Open Scope N_scope.

Definition between (lo hi c : N) : bool := (lo <=? c) && (c <=? hi).

Definition continuation (c : N) : bool := between 128 191 c.

(** The second byte after the lead byte [a] of a sequence of three, and of
    a sequence of four. *)
Definition second_of_three (a c : N) : bool :=
  if a =? 224 then between 160 191 c
  else if a =? 237 then between 128 159 c
  else continuation c.

Definition second_of_four (a c : N) : bool :=
  if a =? 240 then between 144 191 c
  else if a =? 244 then between 128 143 c
  else continuation c.

Fixpoint well_formed (cs : list N) : bool :=
  match cs with
  | [] => true
  | a :: rest =>
      if a <? 128 then well_formed rest
      else
        match rest with
        | [] => false
        | b :: rest1 =>
            if between 194 223 a then continuation b && well_formed rest1
            else
              match rest1 with
              | [] => false
              | c :: rest2 =>
                  if between 224 239 a then
                    second_of_three a b && continuation c && well_formed rest2
                  else
                    match rest2 with
                    | [] => false
                    | d :: rest3 =>
                        between 240 244 a && second_of_four a b
                        && continuation c && continuation d
                        && well_formed rest3
                    end
              end
        end
  end.

(** Whether [line.decode()] returns. *)
Definition decodes (line : list byte) : bool :=
  well_formed (map Byte.to_N line).

End Utf8.

(** [serial.Serial(port, BAUDRATE, timeout=TIMEOUT)]: the name is bound to
    the port of the device, open, or [SerialException] is raised when
    there is no device to open. A device is given by the port that opening
    it yields. *)
Definition serial_Serial (ser : channel) (device : option Serial) : io unit :=
  match device with
  | None => raise SerialException
  | Some d =>
      update_port ser (mkSerial true TIMEOUT (incoming d) (written d)
                                (write_fails d) (close_fails d))
  end.

(** Lines 77-79, and 80-82: the meter is asked for its identity. The
    answer is only printed; [false] stands for the [UnicodeDecodeError]
    of [decode()]. *)
Definition query_id (ser : channel) : io bool :=
  write ser IDN ;;
  time_sleep 500000 ;;
  line <- readline ser ;;
  ret (Utf8.decodes line).

(** Lines 71-89, up to the loop. [false]: an identity did not decode. *)
Definition startup (voltage_device current_device : option Serial) : io bool :=
  serial_Serial Voltage voltage_device ;;
  serial_Serial Current current_device ;;
  time_sleep 2000000 ;;
  idn_voltage <- query_id Voltage ;;
  if idn_voltage then
    idn_current <- query_id Current ;;
    if idn_current then
      setup_instrument Voltage FUNC_VOLT_DC VOLT_DC_RANG_20 ;;
      setup_instrument Current FUNC_CURR_DC CURR_DC_RANG_002 ;;
      ret true
    else ret false
  else ret false.

(** What leaves the [try] block, and how [main] ends. *)
Inductive raised :=
| Exn (e : exn)
| UnicodeDecodeError
| KeyboardInterrupt.

Inductive ending :=
| Stopped                 (* line 157: [KeyboardInterrupt], caught *)
| SerialError             (* line 159: [SerialException], caught *)
| Escaped (r : raised)    (* an exception leaves [main] *)
| Unfinished.             (* a loop cut off by its iteration bound *)

Section Main.

Variable float_of_line : list byte -> option float.

(** Lines 69-155. The loop has no exit of its own: [n] is the number of
    iterations completed when the user presses Ctrl-C, which is taken to
    happen between two iterations. *)
Definition try_block (voltage_device current_device : option Serial)
  (n : nat) (filename : string) (fs : files) (w : world)
  : option raised * files * world :=
  match startup voltage_device current_device w with
  | (Return true, w1) =>
      match main_loop float_of_line n filename initial_state fs w1 with
      | (Return _, fs', w2) => (Some KeyboardInterrupt, fs', w2)
      | (Raise e, fs', w2) => (Some (Exn e), fs', w2)
      | (OutOfFuel, fs', w2) => (None, fs', w2)
      end
  | (Return false, w1) => (Some UnicodeDecodeError, fs, w1)
  | (Raise e, w1) => (Some (Exn e), fs, w1)
  | (OutOfFuel, w1) => (None, fs, w1)
  end.

(** Lines 157-160: the two handlers. *)
Definition handled (r : raised) : ending :=
  match r with
  | KeyboardInterrupt => Stopped
  | Exn SerialException => SerialError
  | _ => Escaped r
  end.

(** Lines 63-168. An exception raised in the [finally] block takes the
    place of whatever was on its way. *)
Definition main (voltage_device current_device : option Serial)
  (n : nat) (filename : string) (fs : files) (w : world)
  : ending * files * world :=
  match try_block voltage_device current_device n filename fs w with
  | (Some r, fs', w1) =>
      match finally_block w1 with
      | (Return _, w2) => (handled r, fs', w2)
      | (Raise e, w2) => (Escaped (Exn e), fs', w2)
      | (OutOfFuel, w2) => (Unfinished, fs', w2)
      end
  | (None, fs', w1) => (Unfinished, fs', w1)
  end.

End Main.

(** [main] is entered with neither name bound. *)
Definition unbound (t : Z) : world := mkWorld t None None.

(** A port with nothing open on it. *)
Definition all_closed (w : world) : Prop :=
  forall ser s, port ser w = Some s -> is_open s = false.

(** How long the read of the identity takes on a freshly opened device:
    the delay of its first answer, or the read timeout when it is silent. *)
Definition first_read (d : Serial) : Z :=
  match incoming d with [] => TIMEOUT | p :: _ => delay p end.

(** A meter on the bench that identifies itself, then answers one query. *)
Definition meter (identity reading : string) : Serial :=
  opened [answer 20000 identity; answer 30000 reading].

(** A device none of whose answers takes a negative time, or more than
    [longest]. *)
Definition device_within (longest : Z) (device : option Serial) : Prop :=
  match device with
  | Some d => Forall (fun p => 0 <= delay p <= longest) (incoming d)
  | None => True
  end.
Example float_of_line_scpi :
  PyFloat.float_of_line (bytes ("+1.234500E+00" ++ CRLF)) = Some 1.2345%float.
Proof. vm_compute. reflexivity. Qed.

Example float_of_line_tenth :
  PyFloat.float_of_line (bytes " 0.1 ") = Some 0.1%float.
Proof. vm_compute. reflexivity. Qed.

Example float_of_line_tie_to_even :
  PyFloat.float_of_line (bytes "9007199254740993") = Some 9007199254740992%float.
Proof. vm_compute. reflexivity. Qed.

Example float_of_line_overflow :
  PyFloat.float_of_line (bytes "1e400") = Some infinity.
Proof. vm_compute. reflexivity. Qed.

Example float_of_line_hard_cases :
  map PyFloat.float_of_line
      [bytes "1e23"; bytes "8.41e21"; bytes "2.2250738585072011e-308";
       bytes "1.7976931348623157e308"; bytes "0.000001"; bytes "4.35";
       bytes "123456789012345678901234567890"; bytes "5e-324";
       bytes "2.4703282292062328e-324"; bytes "2.4703282292062327e-324";
       bytes "-0.0"; bytes "1_000.5e-2"; bytes "-INF"; bytes "Infinity";
       bytes "NaN"]
  = map Some
      [1e23; 8.41e21; 2.2250738585072011e-308; 1.7976931348623157e308;
       0.000001; 4.35; 123456789012345678901234567890; 5e-324;
       5e-324; 0; -0; 10.005; neg_infinity; infinity; nan]%float.
Proof. vm_compute. reflexivity. Qed.

Example float_of_line_rejects :
  map PyFloat.float_of_line
      [bytes ""; bytes CRLF; bytes "1__0"; bytes "1_"; bytes "."; bytes "1e";
       bytes "0x10"; bytes "1 2"; bytes "+-1"; bytes "VOLT"; [xff; x31]]
  = [None; None; None; None; None; None; None; None; None; None; None].
Proof. vm_compute. reflexivity. Qed.

(** * Properties *)

(** ** Facts on binary64 *)

Module FloatFacts.

Local Open Scope float_scope.

Lemma SFeqb_refl (x : spec_float) :
  SFeqb x x = match x with S754_nan => false | _ => true end.
Proof.
  destruct x as [s|s| |s m e]; try destruct s; cbn; try reflexivity;
    unfold SFeqb; cbn; rewrite Z.compare_refl; fold (Pos.compare m m);
    rewrite Pos.compare_refl; reflexivity.
Qed.

Lemma is_nan_Prim2SF (x : float) :
  is_nan x = match Prim2SF x with S754_nan => true | _ => false end.
Proof.
  unfold is_nan. rewrite FloatAxioms.eqb_spec, SFeqb_refl.
  destruct (Prim2SF x); reflexivity.
Qed.

(** [x != x] holds of NaN alone. *)
Lemma is_nan_true (x : float) : is_nan x = true <-> x = nan.
Proof.
  split.
  - rewrite is_nan_Prim2SF. intros H. apply Prim2SF_inj.
    destruct (Prim2SF x); try discriminate. reflexivity.
  - intros ->. reflexivity.
Qed.

Lemma eqb_self (x : float) : (x =? x) = negb (is_nan x).
Proof. unfold is_nan. now rewrite negb_involutive. Qed.

Lemma mul_nan_l (x : float) : nan * x = nan.
Proof. apply Prim2SF_inj. rewrite mul_spec. reflexivity. Qed.

Lemma mul_nan_r (x : float) : x * nan = nan.
Proof.
  apply Prim2SF_inj. rewrite mul_spec. change (Prim2SF nan) with S754_nan.
  destruct (Prim2SF x); reflexivity.
Qed.

(** Floats told apart by a computation on them. *)
Lemma float_neq (x y : float) : Leibniz.eqb x y = false -> x <> y.
Proof.
  intros H E. apply FloatAxioms.Leibniz.eqb_spec in E. congruence.
Qed.


(** *** Rounding never moves a sum below its first term

    The library specifies the operations by the functions of [SpecFloat];
    what follows is read off those functions. *)

Local Open Scope Z_scope.

Lemma digits2_size p : digits2_pos p = Pos.size p.
Proof. induction p; cbn; congruence. Qed.

Lemma digits2_bounds p :
  2 ^ (Zpos (digits2_pos p) - 1) <= Zpos p < 2 ^ Zpos (digits2_pos p).
Proof.
  rewrite digits2_size. split.
  - pose proof (Pos.size_le p) as H.
    apply Pos2Z.pos_le_pos in H. rewrite Pos2Z.inj_pow in H.
    change (Zpos p~0) with (2 * Zpos p) in H.
    replace (Zpos (Pos.size p)) with (1 + (Zpos (Pos.size p) - 1)) in H by lia.
    rewrite Z.pow_add_r in H by lia. change (2 ^ 1) with 2 in H. lia.
  - pose proof (Pos.size_gt p) as H.
    apply Pos2Z.pos_lt_pos in H. rewrite Pos2Z.inj_pow in H. exact H.
Qed.

(** a number at least [2^k] times another has [k] more digits *)
Lemma digits2_scaled p q k :
  0 <= k -> Zpos p * 2 ^ k <= Zpos q ->
  Zpos (digits2_pos p) + k <= Zpos (digits2_pos q).
Proof.
  intros Hk H.
  pose proof (digits2_bounds p) as [Hp _].
  pose proof (digits2_bounds q) as [_ Hq].
  assert (2 ^ (Zpos (digits2_pos p) - 1 + k) < 2 ^ Zpos (digits2_pos q)).
  { rewrite Z.pow_add_r by lia.
    eapply Z.le_lt_trans; [|exact Hq]. eapply Z.le_trans; [|exact H].
    apply Z.mul_le_mono_nonneg_r; [apply Z.pow_nonneg; lia|exact Hp]. }
  apply Z.pow_lt_mono_r_iff in H0; lia.
Qed.

Lemma shr_1_m mrs : 0 <= shr_m mrs -> shr_m (shr_1 mrs) = shr_m mrs / 2.
Proof.
  destruct mrs as [m r s]. cbn [shr_m]. intros H. rewrite <- Z.div2_div.
  destruct m as [|[p|p|]|p]; try reflexivity. lia.
Qed.

Lemma iter_shr_1_m p : forall mrs,
  0 <= shr_m mrs ->
  shr_m (SpecFloat.iter_pos shr_1 p mrs) = shr_m mrs / 2 ^ Zpos p.
Proof.
  induction p as [p IH|p IH|]; intros mrs H; cbn [SpecFloat.iter_pos].
  - assert (H1 : 0 <= shr_m (shr_1 mrs)).
    { rewrite shr_1_m by exact H. apply Z.div_pos; lia. }
    assert (H2 : 0 <= shr_m (SpecFloat.iter_pos shr_1 p (shr_1 mrs))).
    { rewrite IH by exact H1. apply Z.div_pos; [exact H1|]. apply Z.pow_pos_nonneg; lia. }
    rewrite IH by exact H2. rewrite IH by exact H1. rewrite shr_1_m by exact H.
    rewrite !Z.div_div by (try apply Z.pow_pos_nonneg; lia).
    f_equal. replace (Zpos p~1) with (1 + Zpos p + Zpos p) by lia.
    rewrite !Z.pow_add_r by lia. change (2 ^ 1) with 2. ring.
  - assert (H2 : 0 <= shr_m (SpecFloat.iter_pos shr_1 p mrs)).
    { rewrite IH by exact H. apply Z.div_pos; [exact H|]. apply Z.pow_pos_nonneg; lia. }
    rewrite IH by exact H2. rewrite IH by exact H.
    rewrite !Z.div_div by (try apply Z.pow_pos_nonneg; lia).
    f_equal. replace (Zpos p~0) with (Zpos p + Zpos p) by lia.
    rewrite !Z.pow_add_r by lia. ring.
  - rewrite shr_1_m by exact H. reflexivity.
Qed.

(** shifting a non-negative mantissa: the new mantissa and exponent *)
Lemma shr_spec m r s e n :
  0 <= m ->
  shr_m (fst (shr (Build_shr_record m r s) e n)) = m / 2 ^ Z.max 0 n
  /\ snd (shr (Build_shr_record m r s) e n) = e + Z.max 0 n.
Proof.
  intros H. destruct n as [|p|p]; cbn [shr fst snd].
  - cbn [shr_m]. rewrite Z.div_1_r. split; lia.
  - rewrite iter_shr_1_m by exact H. cbn [shr_m].
    rewrite Z.max_r by lia. split; reflexivity.
  - cbn [shr_m Z.max]. change (Z.max 0 (Zneg p)) with 0.
    rewrite Z.div_1_r. split; lia.
Qed.

Lemma shr_fexp_spec m e l :
  0 <= m ->
  let n := Z.max 0 (fexp prec emax (Zdigits2 m + e) - e) in
  shr_m (fst (shr_fexp prec emax m e l)) = m / 2 ^ n
  /\ snd (shr_fexp prec emax m e l) = e + n.
Proof.
  intros H n. unfold shr_fexp.
  destruct l as [|[| |]]; cbn [shr_record_of_loc]; apply shr_spec; exact H.
Qed.

Lemma round_nearest_even_ge m l :
  m <= round_nearest_even m l <= m + 1.
Proof.
  destruct l as [|[| |]]; cbn; try lia. destruct (Z.even m); lia.
Qed.

Lemma binary_round_aux_nonneg sx mx ex lx :
  0 <= mx ->
  exists m2,
    let n1 := Z.max 0 (fexp prec emax (Zdigits2 mx + ex) - ex) in
    let e1 := ex + n1 in
    let n2 := Z.max 0 (fexp prec emax (Zdigits2 m2 + e1) - e1) in
    mx / 2 ^ n1 <= m2 <= mx / 2 ^ n1 + 1
    /\ binary_round_aux prec emax sx mx ex lx
       = match m2 / 2 ^ n2 with
         | Z0 => S754_zero sx
         | Zpos m =>
             if e1 + n2 <=? emax - prec then S754_finite sx m (e1 + n2)
             else S754_infinity sx
         | Zneg _ => S754_nan
         end.
Proof.
  intros H. unfold binary_round_aux.
  destruct (shr_fexp_spec mx ex lx H) as [Hm1 He1].
  destruct (shr_fexp prec emax mx ex lx) as [mrs' e'] eqn:E1.
  cbn [fst snd] in Hm1, He1.
  set (m2 := round_nearest_even (shr_m mrs') (loc_of_shr_record mrs')).
  assert (Hm2 : shr_m mrs' <= m2 <= shr_m mrs' + 1)
    by apply round_nearest_even_ge.
  assert (H2 : 0 <= m2).
  { rewrite Hm1 in Hm2. eapply Z.le_trans; [|exact (proj1 Hm2)].
    apply Z.div_pos; [exact H|]. apply Z.pow_pos_nonneg; lia. }
  destruct (shr_fexp_spec m2 e' loc_Exact H2) as [Hm3 He3].
  destruct (shr_fexp prec emax m2 e' loc_Exact) as [mrs'' e''] eqn:E2.
  cbn [fst snd] in Hm3, He3.
  exists m2. cbn zeta. rewrite <- He1, <- He3, <- Hm3, <- Hm1.
  split; [exact Hm2|reflexivity].
Qed.

Lemma SFnonneg_binary_round_aux mx ex lx :
  0 <= mx -> SFnonneg (binary_round_aux prec emax false mx ex lx) = true.
Proof.
  intros H. destruct (binary_round_aux_nonneg false mx ex lx H) as (m2 & Hm2 & ->).
  cbn zeta in *.
  assert (0 <= m2).
  { eapply Z.le_trans; [|exact (proj1 Hm2)].
    apply Z.div_pos; [exact H|]. apply Z.pow_pos_nonneg; lia. }
  match goal with |- context [m2 / ?d] =>
    assert (0 <= m2 / d) by (apply Z.div_pos; [assumption|apply Z.pow_pos_nonneg; lia]);
    destruct (m2 / d) end; try lia; try reflexivity.
  match goal with |- context [if ?c then _ else _] => destruct c end; reflexivity.
Qed.

Lemma pos_iter_xO m d : Zpos (Pos.iter xO m d) = Zpos m * 2 ^ Zpos d.
Proof.
  induction d as [|d IH] using Pos.peano_ind.
  - cbn [Pos.iter]. rewrite Pos2Z.inj_xO. change (2 ^ 1) with 2. lia.
  - rewrite Pos.iter_succ, Pos2Z.inj_xO, IH, Pos2Z.inj_succ, Z.pow_succ_r by lia.
    ring.
Qed.

Lemma shl_align_fst m e e' :
  e' <= e -> Zpos (fst (shl_align m e e')) = Zpos m * 2 ^ (e - e').
Proof.
  intros H. unfold shl_align.
  destruct (e' - e) as [|d|d] eqn:E; cbn [fst]; try lia.
  - replace (e - e') with 0 by lia. cbn. lia.
  - rewrite pos_iter_xO. f_equal. f_equal. lia.
Qed.

Lemma shl_align_noop m e e' : e <= e' -> shl_align m e e' = (m, e).
Proof.
  intros H. unfold shl_align. destruct (e' - e) eqn:E; try reflexivity. lia.
Qed.

Lemma bounded_canonical m e :
  bounded prec emax m e = true ->
  fexp prec emax (Zpos (digits2_pos m) + e) = e /\ e <= emax - prec.
Proof.
  unfold bounded, canonical_mantissa. intros H.
  apply andb_true_iff in H. destruct H as [H1 H2].
  apply Z.eqb_eq in H1. apply Z.leb_le in H2. split; assumption.
Qed.

Lemma SFleb_refl x : x <> S754_nan -> SFleb x x = true.
Proof.
  destruct x as [s|s| |s m e]; try destruct s; cbn; try reflexivity; try congruence;
    intros _; unfold SFleb; cbn; rewrite Z.compare_refl; fold (Pos.compare m m);
    rewrite Pos.compare_refl; reflexivity.
Qed.

Lemma SFleb_finite_pos ma ea mb eb :
  ea < eb \/ (ea = eb /\ (ma <= mb)%positive) ->
  SFleb (S754_finite false ma ea) (S754_finite false mb eb) = true.
Proof.
  intros [H|[H1 H2]]; unfold SFleb; cbn.
  - apply Z.compare_lt_iff in H. rewrite H. reflexivity.
  - subst. rewrite Z.compare_refl. fold (Pos.compare ma mb).
    destruct (Pos.compare_spec ma mb); try reflexivity. lia.
Qed.

Lemma SFadd_finite_ge ma ea mb eb :
  bounded prec emax ma ea = true -> bounded prec emax mb eb = true ->
  SFleb (S754_finite false ma ea)
        (SFadd prec emax (S754_finite false ma ea) (S754_finite false mb eb)) = true
  /\ SFnonneg (SFadd prec emax (S754_finite false ma ea) (S754_finite false mb eb)) = true.
Proof.
  intros Ha Hb.
  apply bounded_canonical in Ha, Hb. destruct Ha as [Ha Ha'], Hb as [Hb Hb'].
  unfold SFadd. cbn [cond_Zopp]. set (ez := Z.min ea eb).
  assert (Hza : ez <= ea) by (unfold ez; lia).
  assert (Hzb : ez <= eb) by (unfold ez; lia).
  pose proof (shl_align_fst ma ea ez Hza) as Ea.
  pose proof (shl_align_fst mb eb ez Hzb) as Eb.
  set (pa := fst (shl_align ma ea ez)) in *.
  set (pb := fst (shl_align mb eb ez)) in *.
  change (Zpos pa + Zpos pb) with (Zpos (pa + pb)).
  cbn [binary_normalize]. unfold binary_round.
  set (mz := (pa + pb)%positive).
  assert (Hmz : Zpos ma * 2 ^ (ea - ez) <= Zpos mz).
  { unfold mz. rewrite Pos2Z.inj_add, Ea. lia. }
  assert (Hdz : Zpos (digits2_pos ma) + (ea - ez) <= Zpos (digits2_pos mz)).
  { apply digits2_scaled; [lia|exact Hmz]. }
  assert (HE : ea <= fexp prec emax (Zpos (digits2_pos mz) + ez)).
  { rewrite <- Ha at 1. unfold fexp. lia. }
  rewrite shl_align_noop by lia.
  split; [|apply SFnonneg_binary_round_aux; lia].
  destruct (binary_round_aux_nonneg false (Zpos mz) ez loc_Exact ltac:(lia))
    as (m2 & Hm2 & ->).
  cbn zeta in *. cbn [Zdigits2] in *.
  set (E := fexp prec emax (Zpos (digits2_pos mz) + ez)) in *.
  replace (Z.max 0 (E - ez)) with (E - ez) in * by lia.
  replace (ez + (E - ez)) with E in * by lia.
  (* the rounded mantissa is positive *)
  assert (Hm1 : Zpos ma <= Zpos mz / 2 ^ (E - ez) \/ ea < E).
  { destruct (Z.eq_dec E ea) as [->|]; [left|right; lia].
    apply Z.div_le_lower_bound; [apply Z.pow_pos_nonneg; lia|lia]. }
  assert (Hpos1 : 0 < Zpos mz / 2 ^ (E - ez)).
  { destruct Hm1 as [H|H]; [lia|].
    (* E > ea >= emin, so E = digits mz + ez - prec *)
    assert (E = Zpos (digits2_pos mz) + ez - prec).
    { unfold E, fexp in *. unfold emin, emax, prec in *. lia. }
    apply Z.div_str_pos. split; [apply Z.pow_pos_nonneg; lia|].
    pose proof (digits2_bounds mz) as [Hlo _].
    eapply Z.le_trans; [|exact Hlo].
    apply Z.pow_le_mono_r; [lia|]. unfold prec in *. lia. }
  assert (Hpos2 : 0 < m2) by lia.
  destruct m2 as [|p2|p2]; try lia. cbn [Zdigits2] in *.
  set (n2 := Z.max 0 (fexp prec emax (Zpos (digits2_pos p2) + E) - E)) in *.
  assert (Hpos3 : 0 < Zpos p2 / 2 ^ n2).
  { destruct (Z.eq_dec n2 0) as [->|Hn]; [rewrite Z.div_1_r; lia|].
    assert (n2 = Zpos (digits2_pos p2) - prec).
    { unfold n2, fexp in *. unfold emin, emax, prec in *. lia. }
    apply Z.div_str_pos. split; [apply Z.pow_pos_nonneg; lia|].
    pose proof (digits2_bounds p2) as [Hlo _].
    eapply Z.le_trans; [|exact Hlo].
    apply Z.pow_le_mono_r; [lia|]. unfold prec in *. lia. }
  destruct (Zpos p2 / 2 ^ n2) as [|m3|m3] eqn:E3; try lia.
  destruct (E + n2 <=? emax - prec); [|reflexivity].
  apply SFleb_finite_pos.
  destruct (Z.eq_dec n2 0) as [Hn|Hn].
  - rewrite Hn in *. rewrite Z.div_1_r in E3. injection E3 as <-.
    destruct (Z.eq_dec E ea); [right; split; lia|left; lia].
  - left. unfold n2 in *. lia.
Qed.

Lemma SFnonneg_cases x :
  SFnonneg x = true ->
  (exists s, x = S754_zero s) \/ x = S754_infinity false
  \/ exists m e, x = S754_finite false m e.
Proof.
  destruct x as [s|[|]| |[|] m e]; cbn; try discriminate; eauto.
Qed.

Lemma SFadd_ge a b :
  valid_binary a = true -> valid_binary b = true ->
  SFnonneg a = true -> SFnonneg b = true ->
  SFleb a (SFadd prec emax a b) = true
  /\ SFnonneg (SFadd prec emax a b) = true.
Proof.
  intros Va Vb Ha Hb.
  destruct (SFnonneg_cases a Ha) as [[sa ->]|[->|(ma & ea & ->)]];
    destruct (SFnonneg_cases b Hb) as [[sb ->]|[->|(mb & eb & ->)]];
    try (split; reflexivity);
    try (destruct sa, sb; split; reflexivity).
  - split; [apply SFleb_refl; discriminate|reflexivity].
  - apply SFadd_finite_ge; assumption.
Qed.

Lemma SFmul_nonneg x my ey :
  SFnonneg x = true ->
  SFnonneg (SFmul prec emax x (S754_finite false my ey)) = true.
Proof.
  intros Hx.
  destruct (SFnonneg_cases x Hx) as [[s ->]|[->|(m & e & ->)]];
    try reflexivity.
  cbn [SFmul xorb]. apply SFnonneg_binary_round_aux. lia.
Qed.

Lemma SFdiv_nonneg x my ey :
  SFnonneg x = true ->
  SFnonneg (SFdiv prec emax x (S754_finite false my ey)) = true.
Proof.
  intros Hx.
  destruct (SFnonneg_cases x Hx) as [[s ->]|[->|(m & e & ->)]];
    try reflexivity.
  cbn [SFdiv xorb]. unfold SFdiv_core_binary.
  match goal with |- context [Z.div_eucl ?a ?b] =>
    assert (Ha : 0 <= a);
    [|pose proof (Z.div_eucl_eq a b ltac:(lia)) as Hq;
      pose proof (Z.mod_pos_bound a b ltac:(lia)) as Hr;
      unfold Z.modulo in Hr;
      destruct (Z.div_eucl a b) as [q r] eqn:Ed]
  end.
  - match goal with |- 0 <= match ?s with _ => _ end => destruct s eqn:Es end;
      try lia. rewrite <- Es. apply Z.shiftl_nonneg. lia.
  - apply SFnonneg_binary_round_aux. nia.
Qed.

(** *** One addition is off by at most three units of the last place *)






Local Open Scope float_scope.

Lemma leb_zero (x : float) : (0 <=? x) = SFnonneg (Prim2SF x).
Proof. rewrite leb_spec. reflexivity. Qed.

(** Adding a non-negative float to a non-negative float does not go
    below it, and stays non-negative. *)
Lemma add_ge (a b : float) :
  (0 <=? a) = true -> (0 <=? b) = true ->
  (a <=? a + b) = true /\ (0 <=? a + b) = true.
Proof.
  rewrite !leb_zero, leb_spec, add_spec. intros Ha Hb.
  apply SFadd_ge; auto using Prim2SF_valid.
Qed.

Lemma mul_nonneg (x y : float) :
  (0 <=? x) = true ->
  (exists m e, Prim2SF y = S754_finite false m e) ->
  (0 <=? x * y) = true.
Proof.
  rewrite !leb_zero, mul_spec. intros Hx (m & e & ->).
  apply SFmul_nonneg. exact Hx.
Qed.

Lemma div_nonneg (x y : float) :
  (0 <=? x) = true ->
  (exists m e, Prim2SF y = S754_finite false m e) ->
  (0 <=? x / y) = true.
Proof.
  rewrite !leb_zero, div_spec. intros Hx (m & e & ->).
  apply SFdiv_nonneg. exact Hx.
Qed.

Lemma nonneg_not_nan (x : float) : (0 <=? x) = true -> is_nan x = false.
Proof.
  rewrite leb_zero, is_nan_Prim2SF. destruct (Prim2SF x); try reflexivity.
  discriminate.
Qed.

Local Open Scope Z_scope.

(** *** The error of a running sum *)







(** *** A running sum that has stopped growing *)







End FloatFacts.

(** ** The sampling cycle *)

Local Open Scope float_scope.

Lemma run_cons st v c rest :
  run st ((v, c) :: rest)
  = (fst (run (cycle_state st v c) rest),
     (cycle_warnings st v c, cycle_sample st v c)
       :: snd (run (cycle_state st v c) rest)).
Proof.
  unfold cycle_state, cycle_warnings, cycle_sample. cbn [run].
  destruct (cycle st v c) as [[st' w] s]. cbn [fst snd].
  destruct (run st' rest). reflexivity.
Qed.

Lemma samples_cons st v c rest :
  samples st ((v, c) :: rest)
  = cycle_sample st v c :: samples (cycle_state st v c) rest.
Proof. unfold samples. rewrite run_cons. reflexivity. Qed.

(** What a cycle does on each channel is [resolve] on that channel. *)
Lemma cycle_resolve st v c :
  voltage (cycle_sample st v c) = effective_value v (last_valid_voltage st)
  /\ last_valid_voltage (cycle_state st v c)
     = updated_last_good v (last_valid_voltage st)
  /\ current (cycle_sample st v c) = effective_value c (last_valid_current st)
  /\ last_valid_current (cycle_state st v c)
     = updated_last_good c (last_valid_current st)
  /\ cycle_warnings st v c
     = printed Voltage (snd (resolve v (last_valid_voltage st)))
       ++ printed Current (snd (resolve c (last_valid_current st))).
Proof.
  unfold cycle_sample, cycle_state, cycle_warnings, cycle,
    effective_value, updated_last_good.
  destruct v, c, (last_valid_voltage st), (last_valid_current st);
    cbn; repeat split; reflexivity.
Qed.

Lemma voltage_held st g others :
  last_valid_voltage st = Some g ->
  Forall (fun s => voltage s = g)
         (samples st (map (fun c => (None, c)) others)).
Proof.
  revert st. induction others as [|c others IH]; intros st Hg; cbn [map].
  - constructor.
  - rewrite samples_cons.
    destruct (cycle_resolve st None c) as (Hv & Hl & _).
    rewrite Hg in Hv, Hl. constructor.
    + exact Hv.
    + apply IH. exact Hl.
Qed.

Lemma current_held st g others :
  last_valid_current st = Some g ->
  Forall (fun s => current s = g)
         (samples st (map (fun v => (v, None)) others)).
Proof.
  revert st. induction others as [|v others IH]; intros st Hg; cbn [map].
  - constructor.
  - rewrite samples_cons.
    destruct (cycle_resolve st v None) as (_ & _ & Hc & Hl & _).
    rewrite Hg in Hc, Hl. constructor.
    + exact Hc.
    + apply IH. exact Hl.
Qed.

Lemma samples_length l : forall st, List.length (samples st l) = List.length l.
Proof.
  induction l as [|[v c] l IH]; intros st; [reflexivity|].
  rewrite samples_cons. cbn [List.length]. f_equal. apply IH.
Qed.

Lemma Forall_map_repeat {A B} (f : A -> B) (b : B) (l : list A) :
  Forall (fun a => f a = b) l -> map f l = repeat b (List.length l).
Proof.
  induction 1 as [|a l Ha _ IH]; [reflexivity|].
  cbn [map List.length repeat]. rewrite Ha, IH. reflexivity.
Qed.

(** C1. In every cycle each channel is resolved on its own, as the
    fallback policy says: a reading is taken as it is, stored as the last
    good value and nothing is printed; a miss with a last good value takes
    that value, keeps it and prints the stale-value line; a miss without
    one gives NaN, stores nothing and prints the no-data line. So after a
    reading [r] followed by N misses the run logs N + 1 rows, one per
    cycle, and every one of them carries [r] for that channel. *)
Theorem fallback_policy :
  (forall st v c,
      (voltage (cycle_sample st v c),
       last_valid_voltage (cycle_state st v c))
      = fst (resolve v (last_valid_voltage st))
      /\ (current (cycle_sample st v c),
          last_valid_current (cycle_state st v c))
         = fst (resolve c (last_valid_current st))
      /\ cycle_warnings st v c
         = printed Voltage (snd (resolve v (last_valid_voltage st)))
           ++ printed Current (snd (resolve c (last_valid_current st))))
  /\ (forall r g, resolve (Some r) g = (r, Some r, None))
  /\ (forall g, resolve None (Some g) = (g, Some g, Some StaleValueSubstituted))
  /\ resolve None None = (nan, None, Some NoDataAvailable)
  /\ (forall st r c0 others,
         map voltage (samples st (voltage_then_misses r c0 others))
         = repeat r (S (List.length others)))
  /\ (forall st r v0 others,
         map current (samples st (current_then_misses r v0 others))
         = repeat r (S (List.length others))).
Proof.
  split; [|split; [|split; [|split; [|split]]]]; try reflexivity.
  - intros st v c.
    destruct (cycle_resolve st v c) as (Hv & Hlv & Hc & Hlc & Hw).
    unfold effective_value, updated_last_good in *.
    rewrite Hv, Hlv, Hc, Hlc, Hw, <- !surjective_pairing. auto.
  - intros st r c0 others. unfold voltage_then_misses.
    rewrite samples_cons.
    destruct (cycle_resolve st (Some r) c0) as (Hv & Hl & _).
    cbn [map repeat]. f_equal; [exact Hv|].
    rewrite (Forall_map_repeat voltage r _ (voltage_held _ r others Hl)).
    rewrite samples_length, length_map. reflexivity.
  - intros st r v0 others. unfold current_then_misses.
    rewrite samples_cons.
    destruct (cycle_resolve st v0 (Some r)) as (_ & _ & Hc & Hl & _).
    cbn [map repeat]. f_equal; [exact Hc|].
    rewrite (Forall_map_repeat current r _ (current_held _ r others Hl)).
    rewrite samples_length, length_map. reflexivity.
Qed.

Lemma cycle_power st v c :
  power (cycle_sample st v c)
  = voltage (cycle_sample st v c) * current (cycle_sample st v c).
Proof.
  unfold cycle_sample, cycle.
  destruct v, c, (last_valid_voltage st), (last_valid_current st); reflexivity.
Qed.

Lemma cycle_energy st v c :
  energy (cycle_sample st v c)
  = cumulative_energy_Wh st + energy_increment (power (cycle_sample st v c))
  /\ cumulative_energy_Wh (cycle_state st v c) = energy (cycle_sample st v c).
Proof.
  unfold cycle_sample, cycle_state, cycle.
  destruct v, c, (last_valid_voltage st), (last_valid_current st);
    split; reflexivity.
Qed.

Lemma cycle_capacity st v c :
  capacity (cycle_sample st v c)
  = cumulative_capacity_mAh st
    + capacity_increment (current (cycle_sample st v c))
  /\ cumulative_capacity_mAh (cycle_state st v c)
     = capacity (cycle_sample st v c).
Proof.
  unfold cycle_sample, cycle_state, cycle.
  destruct v, c, (last_valid_voltage st), (last_valid_current st);
    split; reflexivity.
Qed.

(** C2, as stated, fails: an infinite power is not finite, yet it passes
    the test [power == power] and the increment is infinite, not 0. *)
Lemma energy_increment_of_infinite_power :
  power (cycle_sample initial_state (Some infinity) (Some 1)) = infinity
  /\ is_finite infinity = false
  /\ energy_increment infinity = infinity
  /\ energy (cycle_sample initial_state (Some infinity) (Some 1)) = infinity
  /\ energy_increment infinity <> 0.
Proof.
  repeat split; try (vm_compute; reflexivity).
  apply FloatFacts.float_neq. vm_compute. reflexivity.
Qed.

(** C2, amended. In every cycle the energy total grows by
    [power * INTERVAL / 3600] when the power is not NaN (an infinite power
    included), and by exactly 0 when it is NaN. *)
Theorem energy_increment_spec :
  forall st v c,
    energy (cycle_sample st v c)
    = cumulative_energy_Wh st
      + (if is_nan (power (cycle_sample st v c)) then 0
         else power (cycle_sample st v c) * INTERVAL / 3600)
    /\ cumulative_energy_Wh (cycle_state st v c) = energy (cycle_sample st v c).
Proof.
  intros st v c. destruct (cycle_energy st v c) as [He Hs].
  split; [|exact Hs]. rewrite He. unfold energy_increment.
  rewrite FloatFacts.eqb_self.
  destruct (is_nan (power (cycle_sample st v c))); reflexivity.
Qed.

(** C3, as stated, fails: an infinite current is not finite, yet the
    increment is infinite, not 0. *)
Lemma capacity_increment_of_infinite_current :
  current (cycle_sample initial_state (Some 1) (Some infinity)) = infinity
  /\ is_finite infinity = false
  /\ capacity_increment infinity = infinity
  /\ capacity (cycle_sample initial_state (Some 1) (Some infinity)) = infinity
  /\ capacity_increment infinity <> 0.
Proof.
  repeat split; try (vm_compute; reflexivity).
  apply FloatFacts.float_neq. vm_compute. reflexivity.
Qed.

(** C3, amended. In every cycle the capacity total grows by
    [current * 1000 * INTERVAL / 3600] when the effective current is not
    NaN (an infinite current included), and by exactly 0 when it is NaN;
    the new total is the same whatever the voltage reading, the last valid
    voltage and the energy total are. *)
Theorem capacity_increment_spec :
  forall st v c,
    capacity (cycle_sample st v c)
    = cumulative_capacity_mAh st
      + (if is_nan (current (cycle_sample st v c)) then 0
         else current (cycle_sample st v c) * 1000 * INTERVAL / 3600)
    /\ cumulative_capacity_mAh (cycle_state st v c)
       = capacity (cycle_sample st v c)
    /\ (forall e lv v',
           capacity (cycle_sample
                       (mkState e (cumulative_capacity_mAh st) lv
                                (last_valid_current st)) v' c)
           = capacity (cycle_sample st v c)).
Proof.
  intros st v c. destruct (cycle_capacity st v c) as [Hc Hs].
  split; [|split; [exact Hs|]].
  - rewrite Hc. unfold capacity_increment. rewrite FloatFacts.eqb_self.
    destruct (is_nan (current (cycle_sample st v c))); reflexivity.
  - intros e lv v'. unfold cycle_sample, cycle. cbn [last_valid_voltage
      last_valid_current cumulative_capacity_mAh cumulative_energy_Wh].
    destruct v, v', c, lv, (last_valid_voltage st), (last_valid_current st);
      reflexivity.
Qed.

(** C4, as stated, fails: with an infinite voltage and a current of 1 the
    voltage is not finite, yet the power is infinite, not NaN. *)
Lemma power_of_infinite_voltage :
  voltage (cycle_sample initial_state (Some infinity) (Some 1)) = infinity
  /\ is_finite infinity = false
  /\ power (cycle_sample initial_state (Some infinity) (Some 1)) = infinity
  /\ is_nan infinity = false.
Proof. repeat split; vm_compute; reflexivity. Qed.

(** C4, amended. In every cycle the power is the IEEE-754 product of the
    two effective values, whatever they are; so it is NaN as soon as one
    of them is NaN. *)
Theorem power_spec :
  forall st v c,
    power (cycle_sample st v c)
    = voltage (cycle_sample st v c) * current (cycle_sample st v c)
    /\ (is_nan (voltage (cycle_sample st v c))
        || is_nan (current (cycle_sample st v c)) = true ->
        is_nan (power (cycle_sample st v c)) = true).
Proof.
  intros st v c. split; [apply cycle_power|].
  rewrite cycle_power. intros H. apply FloatFacts.is_nan_true.
  apply orb_true_iff in H. destruct H as [H|H];
    apply FloatFacts.is_nan_true in H; rewrite H.
  - apply FloatFacts.mul_nan_l.
  - apply FloatFacts.mul_nan_r.
Qed.

(** A cycle in which the voltage meter never answered: the power is NaN. *)
Lemma power_spec_witness :
  is_nan (voltage (cycle_sample initial_state None (Some 1)))
  || is_nan (current (cycle_sample initial_state None (Some 1))) = true
  /\ is_nan (power (cycle_sample initial_state None (Some 1))) = true.
Proof.
  split; [vm_compute; reflexivity|].
  apply (proj2 (power_spec initial_state None (Some 1))).
  vm_compute. reflexivity.
Defined.

(** ** The channel reader *)

Local Open Scope Z_scope.

Lemma with_incoming_twice s ps qs :
  with_incoming (with_incoming s ps) qs = with_incoming s qs.
Proof. reflexivity. Qed.

Lemma with_incoming_same s : with_incoming s (incoming s) = s.
Proof. destruct s; reflexivity. Qed.

Lemma port_set_port ser s w : port ser (set_port ser s w) = Some s.
Proof. destruct ser; reflexivity. Qed.

Lemma port_at_time ser t w : port ser (at_time t w) = port ser w.
Proof. destruct ser; reflexivity. Qed.

Lemma now_set_port ser s w : now (set_port ser s w) = now w.
Proof. destruct ser; reflexivity. Qed.

Lemma set_port_again ser s s' t w :
  set_port ser s' (at_time t (set_port ser s w)) = set_port ser s' (at_time t w).
Proof. destruct ser; reflexivity. Qed.

Lemma at_time_set_port ser s t w :
  at_time t (set_port ser s w) = set_port ser s (at_time t w).
Proof. destruct ser; reflexivity. Qed.

Lemma at_time_twice t t' w : at_time t (at_time t' w) = at_time t w.
Proof. reflexivity. Qed.

Lemma set_port_same ser s w : port ser w = Some s -> set_port ser s w = w.
Proof. destruct ser, w; cbn; intros ->; reflexivity. Qed.

Lemma readline_nil ser s w :
  port ser w = Some s -> is_open s = true -> incoming s = [] ->
  readline ser w = (Return [], at_time (now w + port_timeout s) w).
Proof.
  intros Hp Ho Hi. unfold readline, bind, open_port.
  rewrite Hp, Ho, Hi. reflexivity.
Qed.

Lemma readline_cons ser s p rest w :
  port ser w = Some s -> is_open s = true -> incoming s = p :: rest ->
  readline ser w
  = (match result p with
     | Line data => Return data
     | Broken => Raise SerialException
     end,
     set_port ser (with_incoming s rest) (at_time (now w + delay p) w)).
Proof.
  intros Hp Ho Hi. unfold readline, bind, open_port.
  rewrite Hp, Ho, Hi. cbn. destruct (result p); reflexivity.
Qed.

Section ReaderFacts.

Variable float_of_line : list byte -> option float.


Lemma time_spent_nonneg p : 0 <= delay p -> delay p <= time_spent p.
Proof.
  unfold time_spent, poll_sleep. destruct (result p) as [[|]|]; lia.
Qed.

(** One turn of the loop on a poll that brings nothing usable. *)
Lemma loop_skip fuel ser timeout start s p rest w :
  port ser w = Some s -> is_open s = true -> incoming s = p :: rest ->
  unusable float_of_line p = true -> now w - start < timeout ->
  get_valid_reading_loop float_of_line (S fuel) ser timeout start w
  = get_valid_reading_loop float_of_line fuel ser timeout start
      (set_port ser (with_incoming s rest) (at_time (now w + time_spent p) w)).
Proof.
  intros Hp Ho Hi Hu Hw. cbn [get_valid_reading_loop].
  unfold bind at 1. unfold time_time.
  apply Z.ltb_lt in Hw. rewrite Hw.
  unfold bind at 1. rewrite (readline_cons ser s p rest w Hp Ho Hi).
  unfold unusable in Hu. unfold time_spent.
  destruct (result p) as [[|b line]|]; try discriminate.
  - unfold bind, time_sleep. rewrite now_set_port. cbn [now at_time].
    rewrite at_time_set_port, at_time_twice, Z.add_assoc. reflexivity.
  - destruct (float_of_line (b :: line)); try discriminate.
    rewrite Z.add_0_r. reflexivity.
Qed.


Lemma elapsed_cons p ps : elapsed (p :: ps) = time_spent p + elapsed ps.
Proof. reflexivity. Qed.

Lemma elapsed_nonneg ps :
  Forall (fun p => 0 <= delay p) ps -> 0 <= elapsed ps.
Proof.
  induction 1 as [|p ps Hp _ IH]; [cbn; lia|].
  rewrite elapsed_cons. pose proof (time_spent_nonneg p Hp). lia.
Qed.


(** The loop ends before its bound, no later than one read and one sleep
    after the window has closed, and it gives up only once the window has
    closed. *)
Lemma loop_ends ser timeout start longest :
  forall fuel s w,
    port ser w = Some s -> is_open s = true -> reads_within longest s ->
    (List.length (incoming s) < fuel)%nat ->
    timeout - (now w - start)
    <= poll_sleep * (Z.of_nat fuel - 1 - Z.of_nat (List.length (incoming s))) ->
    exists r w',
      get_valid_reading_loop float_of_line fuel ser timeout start w = (r, w')
      /\ r <> OutOfFuel
      /\ now w <= now w'
      /\ now w' - start <= Z.max (now w - start) (timeout - 1 + longest + poll_sleep)
      /\ (r = Return None -> timeout <= now w' - start)
      /\ (forallb (unusable float_of_line) (incoming s) = true ->
          r = Return None).
Proof.
  induction fuel as [|fuel IH]; intros s w Hp Ho Hr Hf Hm; [lia|].
  destruct (Z.ltb_spec (now w - start) timeout) as [Hw|Hw].
  2:{ exists (Return None), w. cbn [get_valid_reading_loop].
      unfold bind, time_time. apply Z.ltb_ge in Hw. rewrite Hw.
      apply Z.ltb_ge in Hw.
      repeat split; try lia; try discriminate. }
  destruct Hr as [Hpt Hds]. unfold poll_sleep in *.
  destruct (incoming s) as [|p rest] eqn:Hi.
  - (* the instrument is silent *)
    cbn [List.length] in *.
    assert (Hstep :
      get_valid_reading_loop float_of_line (S fuel) ser timeout start w
      = get_valid_reading_loop float_of_line fuel ser timeout start
          (at_time (now w + port_timeout s + 50000) w)).
    { cbn [get_valid_reading_loop]. unfold bind at 1. unfold time_time.
      apply Z.ltb_lt in Hw. rewrite Hw.
      unfold bind at 1. rewrite (readline_nil ser s w Hp Ho Hi).
      unfold bind, time_sleep, poll_sleep. cbn [now at_time]. reflexivity. }
    destruct (IH s (at_time (now w + port_timeout s + 50000) w))
      as (r & w' & Hrun & Hr1 & Hr2 & Hr3 & Hr4 & Hr5).
    + rewrite port_at_time. exact Hp.
    + exact Ho.
    + split; [exact Hpt|]. rewrite Hi. constructor.
    + rewrite Hi. cbn. lia.
    + rewrite Hi. cbn [now at_time List.length]. lia.
    + exists r, w'. rewrite Hstep. cbn [now at_time] in *.
      rewrite Hi in Hr5.
      repeat split; try assumption; try lia.
  - inversion Hds as [|? ? Hdp Hdr]; subst. cbn [List.length] in *.
    destruct (unusable float_of_line p) eqn:Hu.
    + (* passed over *)
      pose proof (time_spent_nonneg p (proj1 Hdp)) as Hts.
      assert (Hts' : time_spent p <= longest + 50000).
      { unfold time_spent, poll_sleep. destruct (result p) as [[|]|]; lia. }
      destruct (IH (with_incoming s rest)
                   (set_port ser (with_incoming s rest)
                             (at_time (now w + time_spent p) w)))
        as (r & w' & Hrun & Hr1 & Hr2 & Hr3 & Hr4 & Hr5).
      * apply port_set_port.
      * exact Ho.
      * split; [exact Hpt|exact Hdr].
      * cbn. lia.
      * rewrite now_set_port. cbn [now at_time with_incoming incoming]. lia.
      * exists r, w'.
        rewrite (loop_skip fuel ser timeout start s p rest w Hp Ho Hi Hu Hw).
        rewrite now_set_port in *. cbn [now at_time] in *.
        repeat split; try assumption; try lia.
        cbn [forallb]. rewrite Hu. exact Hr5.
    + (* returned or raised *)
      unfold unusable in Hu.
      exists (match result p with
              | Line data => Return (float_of_line data)
              | Broken => Raise SerialException
              end),
        (set_port ser (with_incoming s rest) (at_time (now w + delay p) w)).
      rewrite now_set_port. cbn [now at_time].
      split.
      { cbn [get_valid_reading_loop]. unfold bind at 1. unfold time_time.
        apply Z.ltb_lt in Hw. rewrite Hw.
        unfold bind at 1. rewrite (readline_cons ser s p rest w Hp Ho Hi).
        destruct (result p) as [[|b line]|]; try discriminate; [|reflexivity].
        destruct (float_of_line (b :: line)); [reflexivity|discriminate]. }
      repeat split; try lia.
      * destruct (result p); discriminate.
      * destruct (result p) as [[|b line]|]; try discriminate.
        destruct (float_of_line (b :: line)); discriminate.
      * cbn [forallb]. unfold unusable. intros H.
        apply andb_true_iff in H. destruct H as [H _].
        rewrite H in Hu. discriminate.
Qed.

Lemma get_valid_reading_loop_eq ser timeout w :
  get_valid_reading float_of_line ser timeout w
  = get_valid_reading_loop float_of_line (enough_fuel ser timeout w)
      ser timeout (now w) w.
Proof. reflexivity. Qed.

Lemma enough_fuel_enough ser timeout s w :
  port ser w = Some s ->
  (List.length (incoming s) < enough_fuel ser timeout w)%nat
  /\ timeout - (now w - now w)
     <= poll_sleep * (Z.of_nat (enough_fuel ser timeout w) - 1
                      - Z.of_nat (List.length (incoming s))).
Proof.
  intros Hp. unfold enough_fuel, poll_sleep. rewrite Hp. split; [lia|].
  Z.div_mod_to_equations. lia.
Qed.





End ReaderFacts.




(** ** Teardown *)

Lemma finally_block_eq w :
  finally_block w
  = let (v', vfailed) := restore_and_close (ser_voltage w) in
    if vfailed then (Raise SerialException, mkWorld (now w) v' (ser_current w))
    else
      let (c', cfailed) := restore_and_close (ser_current w) in
      (if cfailed then Raise SerialException else Return tt,
       mkWorld (now w) v' c').
Proof.
  destruct w as [t [sv|] [sc|]];
    try destruct sv as [[|] ? ? ? [|] [|]];
    try destruct sc as [[|] ? ? ? [|] [|]];
    reflexivity.
Qed.

(** C9, as stated, fails: when the voltage meter's port raises on the
    display command, the exception leaves the [finally] block at once; the
    current meter's port gets no command and stays open. *)
Lemma teardown_stops_at_voltage_failure :
  finally_block voltage_unplugged = (Raise SerialException, voltage_unplugged)
  /\ ser_current voltage_unplugged = Some (opened [])
  /\ is_open (opened []) = true
  /\ written (opened []) = [].
Proof. repeat split. Qed.

(** C9, amended. Teardown handles the voltage channel first and the
    current channel second, each only when its name is bound and its port
    open. What happens to the voltage channel does not depend on the
    current channel. The current channel is attempted only when restoring
    and closing the voltage channel did not raise; an exception raised on
    either channel leaves the [finally] block uncaught. *)
Theorem teardown_in_order :
  forall w,
    ser_voltage (snd (finally_block w)) = fst (restore_and_close (ser_voltage w))
    /\ (snd (restore_and_close (ser_voltage w)) = false ->
        ser_current (snd (finally_block w))
        = fst (restore_and_close (ser_current w))
        /\ fst (finally_block w)
           = if snd (restore_and_close (ser_current w))
             then Raise SerialException else Return tt)
    /\ (snd (restore_and_close (ser_voltage w)) = true ->
        ser_current (snd (finally_block w)) = ser_current w
        /\ fst (finally_block w) = Raise SerialException).
Proof.
  intros w. rewrite finally_block_eq.
  destruct (restore_and_close (ser_voltage w)) as [v' [|]];
    destruct (restore_and_close (ser_current w)) as [c' [|]];
    cbn; repeat split; intros; try discriminate; auto.
Qed.

(** Both meters fine: each gets the display command and is closed. *)
Lemma teardown_in_order_witness :
  snd (restore_and_close (ser_voltage (bench [] []))) = false
  /\ ser_current (snd (finally_block (bench [] [])))
     = Some (mkSerial false TIMEOUT [] [DISP_ENAB] false false)
  /\ fst (finally_block (bench [] [])) = Return tt.
Proof.
  split; [reflexivity|].
  exact (proj1 (proj2 (teardown_in_order (bench [] []))) eq_refl).
Defined.

(** ** Readings that are not finite *)

(** C10. The line [nan] parses, so the reader returns NaN as a valid
    reading ([inf] likewise parses to an infinity); the cycle stores it as
    the last valid voltage and prints no warning. In the next cycle, the
    voltage meter silent, NaN is the value substituted, under the
    stale-value warning and not the no-data one. *)
Theorem nan_reading_becomes_last_good :
  PyFloat.float_of_line (bytes ("nan" ++ CRLF)) = Some nan
  /\ PyFloat.float_of_line (bytes ("inf" ++ CRLF)) = Some infinity
  /\ is_finite nan = false /\ is_finite infinity = false
  /\ get_valid_reading PyFloat.float_of_line Voltage default_timeout
       (bench [mkPoll 1000 (Line (bytes ("nan" ++ CRLF)))] [])
     = (Return (Some nan), at_time 1000 (bench [] []))
  /\ exists st1 s1 w1 st2 s2 w2,
      loop_body PyFloat.float_of_line initial_state nan_then_silence
      = (Return (st1, [], s1), w1)
      /\ last_valid_voltage st1 = Some nan
      /\ loop_body PyFloat.float_of_line st1 w1
         = (Return (st2, [StaleVoltage], s2), w2)
      /\ voltage s2 = nan
      /\ last_valid_voltage st2 = Some nan.
Proof.
  repeat (split; [vm_compute; reflexivity|]).
  do 6 eexists.
  split; [vm_compute; reflexivity|].
  split; [reflexivity|].
  split; [vm_compute; reflexivity|].
  split; reflexivity.
Qed.

(** ** The accumulators *)

Local Open Scope float_scope.

Lemma energy_increment_nonneg p :
  nan_or_nonneg p = true -> (0 <=? energy_increment p) = true.
Proof.
  unfold nan_or_nonneg, energy_increment. rewrite FloatFacts.eqb_self.
  destruct (is_nan p) eqn:Hn; cbn [negb orb]; [reflexivity|].
  intros Hp. apply FloatFacts.div_nonneg; [|vm_compute; eauto].
  apply FloatFacts.mul_nonneg; [exact Hp|vm_compute; eauto].
Qed.

Lemma capacity_increment_nonneg c :
  nan_or_nonneg c = true -> (0 <=? capacity_increment c) = true.
Proof.
  unfold nan_or_nonneg, capacity_increment. rewrite FloatFacts.eqb_self.
  destruct (is_nan c) eqn:Hn; cbn [negb orb]; [reflexivity|].
  intros Hc. apply FloatFacts.div_nonneg; [|vm_compute; eauto].
  apply FloatFacts.mul_nonneg; [|vm_compute; eauto].
  apply FloatFacts.mul_nonneg; [exact Hc|vm_compute; eauto].
Qed.

Lemma energy_nondecreasing readings :
  forall st,
    (0 <=? cumulative_energy_Wh st) = true ->
    Forall (fun s => nan_or_nonneg (power s) = true) (samples st readings) ->
    nondecreasing_from (cumulative_energy_Wh st)
                       (map energy (samples st readings)).
Proof.
  induction readings as [|[v c] readings IH]; intros st Hst Hp.
  - exact I.
  - rewrite samples_cons in *. inversion Hp as [|? ? Hp1 Hp2]; subst.
    cbn [map nondecreasing_from].
    destruct (cycle_energy st v c) as [He Hs].
    destruct (FloatFacts.add_ge (cumulative_energy_Wh st)
                (energy_increment (power (cycle_sample st v c))) Hst
                (energy_increment_nonneg _ Hp1)) as [Hle Hnn].
    rewrite <- He in Hle, Hnn. split; [exact Hle|].
    rewrite <- Hs. apply IH; [rewrite Hs; exact Hnn|exact Hp2].
Qed.

Lemma capacity_nondecreasing readings :
  forall st,
    (0 <=? cumulative_capacity_mAh st) = true ->
    Forall (fun s => nan_or_nonneg (current s) = true) (samples st readings) ->
    nondecreasing_from (cumulative_capacity_mAh st)
                       (map capacity (samples st readings)).
Proof.
  induction readings as [|[v c] readings IH]; intros st Hst Hp.
  - exact I.
  - rewrite samples_cons in *. inversion Hp as [|? ? Hp1 Hp2]; subst.
    cbn [map nondecreasing_from].
    destruct (cycle_capacity st v c) as [He Hs].
    destruct (FloatFacts.add_ge (cumulative_capacity_mAh st)
                (capacity_increment (current (cycle_sample st v c))) Hst
                (capacity_increment_nonneg _ Hp1)) as [Hle Hnn].
    rewrite <- He in Hle, Hnn. split; [exact Hle|].
    rewrite <- Hs. apply IH; [rewrite Hs; exact Hnn|exact Hp2].
Qed.

(** C5, as stated, fails: a negative current reading (5 V, -0.01 A) makes
    both increments negative, and both totals fall below where they
    started. *)
Lemma accumulators_decrease_on_negative_current :
  (capacity_increment (-0.01) <? 0) = true
  /\ (energy_increment (5 * -0.01) <? 0) = true
  /\ (capacity (cycle_sample initial_state (Some 5) (Some (-0.01)))
      <? cumulative_capacity_mAh initial_state) = true
  /\ (energy (cycle_sample initial_state (Some 5) (Some (-0.01)))
      <? cumulative_energy_Wh initial_state) = true.
Proof. repeat split; vm_compute; reflexivity. Qed.

(** C5, amended. Over any sequence of cycles from the start in which
    every power logged is NaN or not below zero, the energy total never
    steps down; over any in which every effective current is NaN or not
    below zero, the capacity total never steps down. A NaN power or
    current adds exactly 0. *)
Theorem accumulators_nondecreasing :
  forall readings,
    (Forall (fun s => nan_or_nonneg (power s) = true)
            (samples initial_state readings) ->
     nondecreasing_from 0 (map energy (samples initial_state readings)))
    /\ (Forall (fun s => nan_or_nonneg (current s) = true)
               (samples initial_state readings) ->
        nondecreasing_from 0 (map capacity (samples initial_state readings)))
    /\ energy_increment nan = 0 /\ capacity_increment nan = 0.
Proof.
  intros readings. split; [|split; [|split; reflexivity]].
  - apply (energy_nondecreasing readings initial_state). reflexivity.
  - apply (capacity_nondecreasing readings initial_state). reflexivity.
Qed.

(** The specification's end-to-end scenario gives the powers it expects,
    and totals of about [3 * 0.05 / 3600] Wh and [3 * 10 / 3600] mAh. *)
Example end_to_end_powers :
  map power (samples initial_state end_to_end) = [0.05; 0.05; 0.05]
  /\ map voltage (samples initial_state end_to_end) = [5; 5; 5]
  /\ map current (samples initial_state end_to_end) = [0.01; 0.01; 0.01]
  /\ within tolerance
            (cumulative_energy_Wh (fst (run initial_state end_to_end)))
            (3 * (5 # 100) / 3600) = true
  /\ within tolerance
            (cumulative_capacity_mAh (fst (run initial_state end_to_end)))
            (3 * 10 / 3600) = true.
Proof. repeat split; vm_compute; reflexivity. Qed.

(** The end-to-end scenario: no power and no current is negative. *)
Lemma accumulators_nondecreasing_witness :
  Forall (fun s => nan_or_nonneg (power s) = true)
         (samples initial_state end_to_end)
  /\ nondecreasing_from 0 (map energy (samples initial_state end_to_end)).
Proof.
  assert (H : Forall (fun s => nan_or_nonneg (power s) = true)
                     (samples initial_state end_to_end)).
  { repeat constructor. }
  split; [exact H|].
  exact (proj1 (accumulators_nondecreasing end_to_end) H).
Defined.


(** ** Constant readings *)

Local Open Scope float_scope.





Local Open Scope Z_scope.








(** * Further properties *)

(** ** Runs of cycles *)

Local Open Scope float_scope.

Lemma warnings_cons st v c rest :
  warnings st ((v, c) :: rest)
  = cycle_warnings st v c :: warnings (cycle_state st v c) rest.
Proof. unfold warnings. rewrite run_cons. reflexivity. Qed.

Lemma warnings_length l : forall st,
  List.length (warnings st l) = List.length l.
Proof.
  induction l as [|[v c] l IH]; intros st; [reflexivity|].
  rewrite warnings_cons. cbn [List.length]. f_equal. apply IH.
Qed.

Lemma updated_last_good_eq v last :
  updated_last_good v last = match v with Some x => Some x | None => last end.
Proof. destruct v, last; reflexivity. Qed.

Lemma last_delivered_some rs : forall g, last_delivered (Some g) rs <> None.
Proof.
  unfold last_delivered.
  induction rs as [|[x|] rs IH]; intros g; cbn [fold_left]; auto.
  discriminate.
Qed.

(** X2. After any run, the last valid value of a channel is the last
    reading that channel has delivered, or what it was before the run when
    it has delivered none; so a last valid value, once set, is never
    cleared. *)
Theorem last_valid_is_last_delivered :
  forall st readings,
    last_valid_voltage (fst (run st readings))
    = last_delivered (last_valid_voltage st) (map fst readings)
    /\ last_valid_current (fst (run st readings))
       = last_delivered (last_valid_current st) (map snd readings)
    /\ (forall e q g lc,
           last_valid_voltage (fst (run (mkState e q (Some g) lc) readings))
           <> None)
    /\ (forall e q lv g,
           last_valid_current (fst (run (mkState e q lv (Some g)) readings))
           <> None).
Proof.
  intros st readings.
  assert (H : forall st,
             last_valid_voltage (fst (run st readings))
             = last_delivered (last_valid_voltage st) (map fst readings)
             /\ last_valid_current (fst (run st readings))
                = last_delivered (last_valid_current st) (map snd readings)).
  { clear st. induction readings as [|[v c] readings IH]; intros st.
    - split; reflexivity.
    - rewrite run_cons. cbn [fst map]. destruct (IH (cycle_state st v c)) as [Hv Hc].
      destruct (cycle_resolve st v c) as (_ & Hlv & _ & Hlc & _).
      rewrite Hv, Hc, Hlv, Hlc, !updated_last_good_eq. split; reflexivity. }
  destruct (H st) as [Hv Hc]. split; [exact Hv|]. split; [exact Hc|]. split.
  - intros e q g lc. rewrite (proj1 (H _)). apply last_delivered_some.
  - intros e q lv g. rewrite (proj2 (H _)). apply last_delivered_some.
Qed.

Lemma never_answered_current vs :
  forall st,
    last_valid_current st = None ->
    cumulative_energy_Wh st = 0 -> cumulative_capacity_mAh st = 0 ->
    Forall (fun s => current s = nan /\ power s = nan
                     /\ energy s = 0 /\ capacity s = 0)
           (samples st (map (fun v => (v, None)) vs))
    /\ Forall (fun ws => In NoCurrent ws)
              (warnings st (map (fun v => (v, None)) vs)).
Proof.
  induction vs as [|v vs IH]; intros st Hl He Hc; cbn [map].
  - split; constructor.
  - rewrite samples_cons, warnings_cons.
    destruct (cycle_resolve st v None) as (_ & _ & Hcur & Hlc & Hw).
    rewrite Hl in Hcur, Hlc, Hw.
    change (effective_value None None) with nan in Hcur.
    change (updated_last_good None None) with (@None float) in Hlc.
    assert (Hp : power (cycle_sample st v None) = nan).
    { rewrite cycle_power, Hcur. apply FloatFacts.mul_nan_r. }
    destruct (cycle_energy st v None) as [Hen Hen'].
    destruct (cycle_capacity st v None) as [Hca Hca'].
    rewrite Hp, He in Hen. rewrite Hcur, Hc in Hca.
    change (0 + energy_increment nan) with 0 in Hen.
    change (0 + capacity_increment nan) with 0 in Hca.
    destruct (IH (cycle_state st v None)) as [IH1 IH2]; try congruence.
    split; constructor; auto.
    rewrite Hw. apply in_or_app. right. left. reflexivity.
Qed.

(** X3. While the current meter has never answered, the run logs one row
    and prints one set of warnings per cycle; every row carries NaN for
    the current and for the power, both totals stay exactly 0, and every
    cycle prints the no-data warning for the current, whatever the voltage
    meter delivers. *)
Theorem no_current_no_totals :
  forall voltages,
    List.length (samples initial_state (map (fun v => (v, None)) voltages))
    = List.length voltages
    /\ List.length (warnings initial_state (map (fun v => (v, None)) voltages))
       = List.length voltages
    /\ Forall (fun s => current s = nan /\ power s = nan
                        /\ energy s = 0 /\ capacity s = 0)
              (samples initial_state (map (fun v => (v, None)) voltages))
    /\ Forall (fun ws => In NoCurrent ws)
              (warnings initial_state (map (fun v => (v, None)) voltages)).
Proof.
  intros voltages.
  split; [rewrite samples_length; apply length_map|].
  split; [rewrite warnings_length; apply length_map|].
  apply never_answered_current; reflexivity.
Qed.

Lemma no_data_warning_iff st v c :
  (In NoVoltage (cycle_warnings st v c)
   <-> v = None /\ last_valid_voltage st = None)
  /\ (In NoCurrent (cycle_warnings st v c)
      <-> c = None /\ last_valid_current st = None).
Proof.
  destruct (cycle_resolve st v c) as (_ & _ & _ & _ & ->).
  destruct v, c, (last_valid_voltage st), (last_valid_current st); cbn;
    split; split; intros H;
    repeat match goal with
      | H : _ \/ _ |- _ => destruct H
      | H : _ /\ _ |- _ => destruct H
      end; try discriminate; try contradiction; auto.
Qed.

Lemma no_data_voltage_gone rest :
  forall st, last_valid_voltage st <> None ->
    Forall (fun ws => ~ In NoVoltage ws) (warnings st rest).
Proof.
  induction rest as [|[v c] rest IH]; intros st Hl; [constructor|].
  rewrite warnings_cons. constructor.
  - intros H. apply no_data_warning_iff in H. tauto.
  - apply IH. destruct (cycle_resolve st v c) as (_ & -> & _).
    rewrite updated_last_good_eq. destruct v; [discriminate|exact Hl].
Qed.

Lemma no_data_current_gone rest :
  forall st, last_valid_current st <> None ->
    Forall (fun ws => ~ In NoCurrent ws) (warnings st rest).
Proof.
  induction rest as [|[v c] rest IH]; intros st Hl; [constructor|].
  rewrite warnings_cons. constructor.
  - intros H. apply no_data_warning_iff in H. tauto.
  - apply IH. destruct (cycle_resolve st v c) as (_ & _ & _ & -> & _).
    rewrite updated_last_good_eq. destruct c; [discriminate|exact Hl].
Qed.

(** X4. From the cycle in which a channel delivers a reading on, the
    no-data warning of that channel is never printed again, whatever
    follows. *)
Theorem no_data_warning_only_before_first_reading :
  forall st r rest,
    (forall c0,
        Forall (fun ws => ~ In NoVoltage ws)
               (warnings st ((Some r, c0) :: rest)))
    /\ (forall v0,
           Forall (fun ws => ~ In NoCurrent ws)
                  (warnings st ((v0, Some r) :: rest))).
Proof.
  intros st r rest. split; intros x; rewrite warnings_cons; constructor.
  - intros H. apply no_data_warning_iff in H. destruct H. discriminate.
  - apply no_data_voltage_gone.
    destruct (cycle_resolve st (Some r) x) as (_ & -> & _). discriminate.
  - intros H. apply no_data_warning_iff in H. destruct H. discriminate.
  - apply no_data_current_gone.
    destruct (cycle_resolve st x (Some r)) as (_ & _ & _ & -> & _). discriminate.
Qed.

Lemma add_nan_l (x : float) : nan + x = nan.
Proof. apply Prim2SF_inj. rewrite add_spec. reflexivity. Qed.

Lemma nan_energy_stays rs :
  forall st, cumulative_energy_Wh st = nan ->
    Forall (fun s => energy s = nan) (samples st rs).
Proof.
  induction rs as [|[v c] rs IH]; intros st H; [constructor|].
  rewrite samples_cons. destruct (cycle_energy st v c) as [He Hs].
  rewrite H, add_nan_l in He. constructor; [exact He|].
  apply IH. congruence.
Qed.

Lemma nan_capacity_stays rs :
  forall st, cumulative_capacity_mAh st = nan ->
    Forall (fun s => capacity s = nan) (samples st rs).
Proof.
  induction rs as [|[v c] rs IH]; intros st H; [constructor|].
  rewrite samples_cons. destruct (cycle_capacity st v c) as [He Hs].
  rewrite H, add_nan_l in He. constructor; [exact He|].
  apply IH. congruence.
Qed.

(** X5. A total that has become NaN stays NaN: every later row carries
    NaN for it, whatever the meters deliver. (A total becomes NaN when an
    increment of plus infinity meets one of minus infinity.) *)
Theorem nan_total_is_never_recovered :
  forall st readings,
    (is_nan (cumulative_energy_Wh st) = true ->
     Forall (fun s => is_nan (energy s) = true) (samples st readings))
    /\ (is_nan (cumulative_capacity_mAh st) = true ->
        Forall (fun s => is_nan (capacity s) = true) (samples st readings)).
Proof.
  intros st readings. split; intros H; apply FloatFacts.is_nan_true in H.
  - eapply Forall_impl; [|apply nan_energy_stays; exact H].
    intros s ->. reflexivity.
  - eapply Forall_impl; [|apply nan_capacity_stays; exact H].
    intros s ->. reflexivity.
Qed.

(** Currents of plus and minus infinity at 1 V have turned both totals to
    NaN; readings of 5 V and 0.01 A do not bring them back. *)
Lemma nan_total_is_never_recovered_witness :
  is_nan (cumulative_energy_Wh poisoned) = true
  /\ is_nan (cumulative_capacity_mAh poisoned) = true
  /\ Forall (fun s => is_nan (energy s) = true) (samples poisoned end_to_end)
  /\ Forall (fun s => is_nan (capacity s) = true) (samples poisoned end_to_end).
Proof.
  assert (He : is_nan (cumulative_energy_Wh poisoned) = true)
    by (vm_compute; reflexivity).
  assert (Hc : is_nan (cumulative_capacity_mAh poisoned) = true)
    by (vm_compute; reflexivity).
  split; [exact He|]. split; [exact Hc|]. split.
  - exact (proj1 (nan_total_is_never_recovered poisoned end_to_end) He).
  - exact (proj2 (nan_total_is_never_recovered poisoned end_to_end) Hc).
Defined.

(** ** Instrument setup *)

Local Open Scope Z_scope.

Lemma write_ok ser s data w :
  port ser w = Some s -> is_open s = true -> write_fails s = false ->
  write ser data w
  = (Return tt, set_port ser (with_written s (written s ++ [data])) w).
Proof.
  intros Hp Ho Hf. unfold write, bind, open_port. rewrite Hp, Ho, Hf.
  reflexivity.
Qed.

Lemma write_refused ser s data w :
  port ser w = Some s -> is_open s = true -> write_fails s = true ->
  write ser data w = (Raise SerialException, w).
Proof.
  intros Hp Ho Hf. unfold write, bind, open_port. rewrite Hp, Ho, Hf.
  reflexivity.
Qed.

Lemma bind_return {A B} (m : io A) (k : A -> io B) w a w' :
  m w = (Return a, w') -> bind m k w = k a w'.
Proof. intros H. unfold bind. rewrite H. reflexivity. Qed.

Lemma bind_raise {A B} (m : io A) (k : A -> io B) w e w' :
  m w = (Raise e, w') -> bind m k w = (Raise e, w').
Proof. intros H. unfold bind. rewrite H. reflexivity. Qed.

Lemma bind_sleep {B} d (k : unit -> io B) w :
  bind (time_sleep d) k w = k tt (at_time (now w + d) w).
Proof. reflexivity. Qed.

(** X6. On an open port, [setup_instrument] sends the echo, function and
    range commands in that order and nothing else, takes 0.9 s and reads
    nothing; when the port refuses a write it raises on the first command,
    before any delay and with nothing sent. *)
Theorem setup_sends_three_commands :
  forall ser func_command range_command w s,
    port ser w = Some s -> is_open s = true ->
    setup_instrument ser func_command range_command w
    = if write_fails s then (Raise SerialException, w)
      else (Return tt,
            set_port ser
              (with_written s
                 (written s ++ [ECHO_OFF; func_command; range_command]))
              (at_time (now w + 900000) w)).
Proof.
  intros ser f r w s Hp Ho. unfold setup_instrument.
  destruct (write_fails s) eqn:Hf.
  - apply bind_raise. apply (write_refused ser s); assumption.
  - rewrite (bind_return _ _ _ _ _ (write_ok ser s ECHO_OFF w Hp Ho Hf)).
    rewrite bind_sleep.
    rewrite (bind_return _ _ _ tt
               (set_port ser
                  (with_written s ((written s ++ [ECHO_OFF]) ++ [f]))
                  (at_time (now w + 300000) w))).
    2:{ rewrite (write_ok ser (with_written s (written s ++ [ECHO_OFF])));
          try assumption.
        - rewrite set_port_again. destruct ser; reflexivity.
        - rewrite port_at_time. apply port_set_port. }
    rewrite bind_sleep.
    rewrite (bind_return _ _ _ tt
               (set_port ser
                  (with_written s (((written s ++ [ECHO_OFF]) ++ [f]) ++ [r]))
                  (at_time (now w + 300000 + 300000) w))).
    2:{ rewrite (write_ok ser
                   (with_written s ((written s ++ [ECHO_OFF]) ++ [f])));
          try assumption.
        - destruct ser, w; reflexivity.
        - rewrite port_at_time. apply port_set_port. }
    unfold time_sleep. rewrite <- !app_assoc. cbn [app].
    rewrite now_set_port, at_time_set_port, at_time_twice. cbn [now at_time].
    replace (now w + 300000 + 300000 + 300000) with (now w + 900000) by lia.
    reflexivity.
Qed.

(** An open, healthy voltage port. *)
Lemma setup_sends_three_commands_witness :
  port Voltage (bench [] []) = Some (opened [])
  /\ is_open (opened []) = true
  /\ setup_instrument Voltage FUNC_VOLT_DC VOLT_DC_RANG_20 (bench [] [])
     = (Return tt,
        mkWorld 900000
          (Some (mkSerial true TIMEOUT []
                   [ECHO_OFF; FUNC_VOLT_DC; VOLT_DC_RANG_20] false false))
          (Some (opened []))).
Proof.
  split; [reflexivity|]. split; [reflexivity|].
  exact (setup_sends_three_commands Voltage FUNC_VOLT_DC VOLT_DC_RANG_20
           (bench [] []) (opened []) eq_refl eq_refl).
Defined.

(** ** More on the channel reader *)

Lemma readline_closed ser s w :
  port ser w = Some s -> is_open s = false ->
  readline ser w = (Raise SerialException, w).
Proof.
  intros Hp Ho. unfold readline, bind, open_port. rewrite Hp, Ho. reflexivity.
Qed.

Lemma port_other_set_port ser s w :
  port (other ser) (set_port ser s w) = port (other ser) w.
Proof. destruct ser; reflexivity. Qed.

Section ReaderMore.

Variable float_of_line : list byte -> option float.

Lemma loop_frame ser timeout start :
  forall fuel s w r w',
    port ser w = Some s ->
    get_valid_reading_loop float_of_line fuel ser timeout start w = (r, w') ->
    port (other ser) w' = port (other ser) w
    /\ exists consumed,
        incoming s = consumed ++ match port ser w' with
                                 | Some s' => incoming s'
                                 | None => []
                                 end
        /\ port ser w' = Some (with_incoming s (skipn (List.length consumed)
                                                      (incoming s))).
Proof.
  induction fuel as [|fuel IH]; intros s w r w' Hp Hrun.
  - cbn in Hrun. injection Hrun as <- <-. split; [reflexivity|].
    exists []. rewrite Hp. cbn [app List.length skipn].
    rewrite with_incoming_same. auto.
  - cbn [get_valid_reading_loop] in Hrun.
    unfold bind at 1 in Hrun. unfold time_time in Hrun.
    destruct (now w - start <? timeout).
    2:{ injection Hrun as <- <-. split; [reflexivity|].
        exists []. rewrite Hp. cbn [app List.length skipn].
        rewrite with_incoming_same. auto. }
    unfold bind at 1 in Hrun.
    destruct (is_open s) eqn:Ho.
    2:{ rewrite (readline_closed ser s w Hp Ho) in Hrun.
        injection Hrun as <- <-. split; [reflexivity|].
        exists []. rewrite Hp. cbn [app List.length skipn].
        rewrite with_incoming_same. auto. }
    destruct (incoming s) as [|p rest] eqn:Hi.
    + rewrite (readline_nil ser s w Hp Ho Hi) in Hrun.
      unfold bind at 1 in Hrun. cbn [time_sleep] in Hrun.
      apply IH with (s := s) in Hrun; [|rewrite !port_at_time; exact Hp].
      rewrite !port_at_time in Hrun. rewrite Hi in Hrun. exact Hrun.
    + rewrite (readline_cons ser s p rest w Hp Ho Hi) in Hrun.
      set (w2 := set_port ser (with_incoming s rest)
                          (at_time (now w + delay p) w)) in *.
      assert (Hp2 : port ser w2 = Some (with_incoming s rest))
        by apply port_set_port.
      assert (Ho2 : port (other ser) w2 = port (other ser) w).
      { unfold w2. rewrite port_other_set_port. destruct ser; reflexivity. }
      assert (Hhere :
        port (other ser) w2 = port (other ser) w
        /\ exists consumed,
            p :: rest = consumed ++ match port ser w2 with
                                    | Some s' => incoming s'
                                    | None => []
                                    end
            /\ port ser w2
               = Some (with_incoming s (skipn (List.length consumed)
                                              (p :: rest)))).
      { split; [exact Ho2|]. exists [p]. rewrite Hp2. split; reflexivity. }
      assert (Hnext : forall w3 r w',
        port ser w3 = Some (with_incoming s rest) ->
        port (other ser) w3 = port (other ser) w ->
        get_valid_reading_loop float_of_line fuel ser timeout start w3
        = (r, w') ->
        port (other ser) w' = port (other ser) w
        /\ exists consumed,
            p :: rest = consumed ++ match port ser w' with
                                    | Some s' => incoming s'
                                    | None => []
                                    end
            /\ port ser w'
               = Some (with_incoming s (skipn (List.length consumed)
                                              (p :: rest)))).
      { intros w3 r3 w3' Hp3 Ho3 Hrun3.
        destruct (IH _ _ _ _ Hp3 Hrun3) as (Hoth & consumed & Hc & Hs').
        split; [congruence|]. exists (p :: consumed).
        cbn [with_incoming incoming] in Hc, Hs'.
        split; [cbn [app]; f_equal; exact Hc|].
        rewrite Hs'. reflexivity. }
      destruct (result p) as [[|b line]|].
      * unfold bind at 1 in Hrun. cbn [time_sleep] in Hrun.
        eapply Hnext; [| |exact Hrun].
        -- rewrite port_at_time. exact Hp2.
        -- rewrite port_at_time. exact Ho2.
      * destruct (float_of_line (b :: line)).
        -- injection Hrun as <- <-. exact Hhere.
        -- eapply Hnext; [exact Hp2|exact Ho2|exact Hrun].
      * injection Hrun as <- <-. exact Hhere.
Qed.

(** X7. Whatever it returns or raises, the reader changes nothing but the
    clock and the pending input of its own port: the other port is
    untouched, nothing is written, the port stays as open as it was, and
    what is left to read is what was pending less a prefix, the lines it
    has consumed. *)
Theorem reader_reads_only :
  forall ser timeout w s r w',
    port ser w = Some s ->
    get_valid_reading float_of_line ser timeout w = (r, w') ->
    port (other ser) w' = port (other ser) w
    /\ exists consumed rest,
        incoming s = consumed ++ rest
        /\ port ser w' = Some (with_incoming s rest).
Proof.
  intros ser timeout w s r w' Hp Hrun.
  rewrite get_valid_reading_loop_eq in Hrun.
  destruct (loop_frame ser timeout (now w) _ s w r w' Hp Hrun)
    as (Hoth & consumed & Hc & Hs').
  split; [exact Hoth|].
  exists consumed, (skipn (List.length consumed) (incoming s)).
  split; [|exact Hs'].
  rewrite Hs' in Hc. exact Hc.
Qed.


Lemma enough_fuel_pos ser timeout w :
  exists fuel, enough_fuel ser timeout w = S fuel.
Proof.
  unfold enough_fuel. destruct (port ser w).
  - exists (List.length (incoming s) + Z.to_nat (timeout / poll_sleep) + 1)%nat.
    lia.
  - exists O. reflexivity.
Qed.

(** X8. With a window of zero or less the reader returns [None] at once
    and touches nothing, not even a closed or unbound port; with an open
    window and a closed port it raises [SerialException] at once. *)
Theorem reader_edge_cases :
  forall ser timeout w,
    (timeout <= 0 ->
     get_valid_reading float_of_line ser timeout w = (Return None, w))
    /\ (0 < timeout ->
        forall s, port ser w = Some s -> is_open s = false ->
          get_valid_reading float_of_line ser timeout w
          = (Raise SerialException, w)).
Proof.
  intros ser timeout w. rewrite get_valid_reading_loop_eq.
  destruct (enough_fuel_pos ser timeout w) as [fuel ->].
  cbn [get_valid_reading_loop]. split.
  - intros H. apply Z.ltb_ge in H.
    unfold bind at 1. unfold time_time. rewrite Z.sub_diag, H. reflexivity.
  - intros H s Hp Ho. apply Z.ltb_lt in H.
    unfold bind at 1. unfold time_time. rewrite Z.sub_diag, H.
    unfold bind. rewrite (readline_closed ser s w Hp Ho). reflexivity.
Qed.

(** One turn of the loop on a read that raises. *)
Lemma loop_break fuel ser timeout start s d rest w :
  port ser w = Some s -> is_open s = true ->
  incoming s = mkPoll d Broken :: rest ->
  now w - start < timeout ->
  get_valid_reading_loop float_of_line (S fuel) ser timeout start w
  = (Raise SerialException,
     set_port ser (with_incoming s rest) (at_time (now w + d) w)).
Proof.
  intros Hp Ho Hi Hw. cbn [get_valid_reading_loop].
  unfold bind at 1. unfold time_time.
  apply Z.ltb_lt in Hw. rewrite Hw.
  unfold bind at 1. rewrite (readline_cons ser s _ rest w Hp Ho Hi).
  reflexivity.
Qed.

Lemma loop_raises ser timeout start d rest :
  forall skipped fuel s w,
    port ser w = Some s -> is_open s = true ->
    incoming s = skipped ++ mkPoll d Broken :: rest ->
    forallb (unusable float_of_line) skipped = true ->
    Forall (fun p => 0 <= delay p) skipped ->
    now w - start + elapsed skipped < timeout ->
    (List.length skipped < fuel)%nat ->
    get_valid_reading_loop float_of_line fuel ser timeout start w
    = (Raise SerialException,
       set_port ser (with_incoming s rest)
                (at_time (now w + elapsed skipped + d) w)).
Proof.
  induction skipped as [|p skipped IH];
    intros fuel s w Hp Ho Hi Hu Hd Hw Hf.
  - destruct fuel as [|fuel]; [cbn in Hf; lia|].
    change (elapsed []) with 0 in *. rewrite Z.add_0_r in *.
    eapply loop_break; eauto.
  - destruct fuel as [|fuel]; [cbn in Hf; lia|].
    cbn [forallb] in Hu. apply andb_true_iff in Hu. destruct Hu as [Hu Hus].
    inversion Hd as [|? ? Hdp Hds]; subst.
    rewrite elapsed_cons in Hw.
    pose proof (elapsed_nonneg skipped Hds).
    pose proof (time_spent_nonneg p Hdp).
    rewrite (loop_skip float_of_line fuel ser timeout start s p
               (skipped ++ mkPoll d Broken :: rest) w Hp Ho Hi Hu)
      by lia.
    rewrite (IH fuel (with_incoming s (skipped ++ mkPoll d Broken :: rest))).
    + rewrite with_incoming_twice, now_set_port, set_port_again, at_time_twice.
      rewrite elapsed_cons. cbn [now at_time].
      do 3 f_equal. lia.
    + apply port_set_port.
    + exact Ho.
    + reflexivity.
    + exact Hus.
    + exact Hds.
    + rewrite now_set_port. cbn [now at_time]. lia.
    + cbn in Hf. lia.
Qed.

(** X9. When a read raises [SerialException] while the window is open,
    after any number of empty or unparsable lines, the reader lets the
    exception through at that moment: it returns no reading, falls back on
    nothing, and leaves what follows unread. *)
Theorem reader_lets_serial_error_through :
  forall ser timeout w s skipped d rest,
    port ser w = Some s -> is_open s = true ->
    incoming s = skipped ++ mkPoll d Broken :: rest ->
    forallb (unusable float_of_line) skipped = true ->
    Forall (fun p => 0 <= delay p) skipped ->
    elapsed skipped < timeout ->
    get_valid_reading float_of_line ser timeout w
    = (Raise SerialException,
       set_port ser (with_incoming s rest)
                (at_time (now w + elapsed skipped + d) w)).
Proof.
  intros ser timeout w s skipped d rest Hp Ho Hi Hu Hd Hw.
  pose proof (enough_fuel_enough ser timeout s w Hp) as [Hf _].
  rewrite get_valid_reading_loop_eq.
  apply (loop_raises ser timeout (now w) d rest skipped _ s w); auto.
  - lia.
  - rewrite Hi, length_app in Hf. lia.
Qed.

End ReaderMore.

(** The noisy answer: the reader consumes three lines of the voltage port
    and leaves the fourth. *)
Lemma reader_reads_only_witness :
  port Voltage (bench noisy_answer [mkPoll 0 Broken])
  = Some (opened noisy_answer)
  /\ port Current (bench noisy_answer [mkPoll 0 Broken])
     = Some (opened [mkPoll 0 Broken])
  /\ exists r w',
      get_valid_reading PyFloat.float_of_line Voltage default_timeout
        (bench noisy_answer [mkPoll 0 Broken]) = (r, w')
      /\ port Current w' = Some (opened [mkPoll 0 Broken])
      /\ exists consumed rest,
          noisy_answer = consumed ++ rest
          /\ port Voltage w' = Some (with_incoming (opened noisy_answer) rest).
Proof.
  split; [reflexivity|]. split; [reflexivity|].
  eexists. eexists.
  assert (H : get_valid_reading PyFloat.float_of_line Voltage default_timeout
                (bench noisy_answer [mkPoll 0 Broken])
              = (Return (Some 1.2345%float),
                 mkWorld 200000
                   (Some (opened [mkPoll 10000 (Line (bytes "9.9"))]))
                   (Some (opened [mkPoll 0 Broken]))))
    by (vm_compute; reflexivity).
  split; [exact H|].
  exact (reader_reads_only PyFloat.float_of_line Voltage default_timeout
           (bench noisy_answer [mkPoll 0 Broken]) (opened noisy_answer)
           _ _ eq_refl H).
Defined.

(** A closed port, and a window of zero. *)
Lemma reader_edge_cases_witness :
  get_valid_reading PyFloat.float_of_line Voltage 0
    (mkWorld 0 (Some (closed (opened noisy_answer))) None)
  = (Return None, mkWorld 0 (Some (closed (opened noisy_answer))) None)
  /\ get_valid_reading PyFloat.float_of_line Voltage default_timeout
       (mkWorld 0 (Some (closed (opened noisy_answer))) None)
     = (Raise SerialException,
        mkWorld 0 (Some (closed (opened noisy_answer))) None).
Proof.
  split.
  - apply (proj1 (reader_edge_cases PyFloat.float_of_line Voltage 0 _)).
    reflexivity.
  - apply (proj2 (reader_edge_cases PyFloat.float_of_line Voltage
                    default_timeout _)) with (s := closed (opened noisy_answer));
      reflexivity.
Defined.

(** The voltage meter drops off the bus after a stray word. *)
Lemma reader_lets_serial_error_through_witness :
  get_valid_reading PyFloat.float_of_line Voltage default_timeout
    (bench [mkPoll 20000 (Line (bytes "VOLT")); mkPoll 5000 Broken] [])
  = (Raise SerialException, at_time 25000 (bench [] [])).
Proof.
  apply (reader_lets_serial_error_through PyFloat.float_of_line Voltage
           default_timeout
           (bench [mkPoll 20000 (Line (bytes "VOLT")); mkPoll 5000 Broken] [])
           (opened [mkPoll 20000 (Line (bytes "VOLT")); mkPoll 5000 Broken])
           [mkPoll 20000 (Line (bytes "VOLT"))] 5000 []).
  - reflexivity.
  - reflexivity.
  - reflexivity.
  - vm_compute. reflexivity.
  - repeat constructor; cbn; lia.
  - vm_compute. reflexivity.
Defined.

(** ** The log file *)

Lemma appended_same filename lines fs :
  appended filename lines fs filename
  = Some (match fs filename with Some old => old | None => [] end ++ lines).
Proof. cbn. rewrite String.eqb_refl. reflexivity. Qed.

Lemma appended_other filename lines fs name :
  name <> filename -> appended filename lines fs name = fs name.
Proof. intros H. cbn. apply String.eqb_neq in H. rewrite H. reflexivity. Qed.

Lemma log_rows_cons filename r rows fs :
  log_rows filename (r :: rows) fs
  = log_rows filename rows
      (appended filename
                ((if path_exists filename fs then [] else [Header])
                 ++ [row_of r]) fs).
Proof. reflexivity. Qed.

Lemma log_rows_refused filename rows : forall fs,
  refused (log_rows filename rows fs) = refused fs.
Proof.
  induction rows as [|r rows IH]; intros fs; [reflexivity|].
  rewrite log_rows_cons, IH. reflexivity.
Qed.

(** A call of [log_data], on a path that can be written and on one that
    cannot. *)
Lemma log_data_writes r filename fs :
  refused fs filename = false ->
  log_data (fst r) (voltage (snd r)) (current (snd r)) (power (snd r))
           (energy (snd r)) (capacity (snd r)) filename fs
  = Some (log_rows filename [r] fs).
Proof.
  intros H. unfold log_data, to_csv. rewrite H.
  cbn [log_rows fold_left]. destruct (path_exists filename fs); reflexivity.
Qed.

Lemma log_data_raises t v c p e q filename fs :
  refused fs filename = true -> log_data t v c p e q filename fs = None.
Proof. intros H. unfold log_data, to_csv. rewrite H. reflexivity. Qed.

Lemma log_rows_first filename r (fs : files) :
  appended filename
           ((if path_exists filename fs then [] else [Header]) ++ [row_of r])
           fs filename
  = Some (match fs filename with Some old => old | None => [Header] end
          ++ [row_of r]).
Proof.
  rewrite appended_same. unfold path_exists.
  destruct (fs filename); reflexivity.
Qed.

Lemma log_rows_existing filename rows : forall (fs : files) lines,
  fs filename = Some lines ->
  log_rows filename rows fs filename = Some (lines ++ map row_of rows).
Proof.
  induction rows as [|r rows IH]; intros fs lines H.
  - cbn. rewrite app_nil_r. exact H.
  - rewrite log_rows_cons.
    rewrite (IH _ (lines ++ [row_of r])).
    + rewrite <- app_assoc. reflexivity.
    + rewrite appended_same. unfold path_exists. rewrite H. reflexivity.
Qed.

Lemma log_rows_other filename name rows : forall fs,
  name <> filename -> log_rows filename rows fs name = fs name.
Proof.
  induction rows as [|r rows IH]; intros fs H; [reflexivity|].
  rewrite log_rows_cons, IH by exact H. apply appended_other, H.
Qed.

Lemma log_calls_write filename rows : forall fs,
  refused fs filename = false ->
  log_calls filename rows fs = Some (log_rows filename rows fs).
Proof.
  induction rows as [|r rows IH]; intros fs H; [reflexivity|].
  cbn [log_calls]. rewrite (log_data_writes r filename fs H).
  rewrite IH by (rewrite log_rows_refused; exact H). reflexivity.
Qed.

(** X10. Successive calls of [log_data] on one file name. On a path that
    cannot be opened for appending the first call raises [OSError] and
    nothing is written. Otherwise every call returns: a file that was not
    there gets the header line once, as its first line, then the rows in
    order; a file that was there, be it empty, keeps its lines and gets
    the rows behind them and no header; no other file is touched. *)
Theorem log_appends_rows :
  forall filename r rows fs,
    (refused fs filename = true ->
     log_calls filename (r :: rows) fs = None)
    /\ (refused fs filename = false ->
        exists fs',
          log_calls filename (r :: rows) fs = Some fs'
          /\ fs' filename
             = Some (match fs filename with
                     | Some lines => lines
                     | None => [Header]
                     end ++ map row_of (r :: rows))
          /\ (forall name, name <> filename -> fs' name = fs name)
          /\ refused fs' = refused fs).
Proof.
  intros filename r rows fs. split; intros H.
  - cbn [log_calls]. rewrite log_data_raises by exact H. reflexivity.
  - exists (log_rows filename (r :: rows) fs).
    split; [apply log_calls_write, H|]. split; [|split].
    + rewrite log_rows_cons.
      rewrite (log_rows_existing filename rows _ _ (log_rows_first _ r fs)).
      rewrite <- app_assoc. reflexivity.
    + intros name Hn. apply log_rows_other, Hn.
    + apply log_rows_refused.
Qed.
(** ** The loop of [main] *)

Section LoopFacts.

Variable float_of_line : list byte -> option float.

Lemma measure_eq ser w :
  measure float_of_line ser w
  = match port ser w with
    | None => (Raise UnboundLocalError, w)
    | Some s =>
        if is_open s then
          if write_fails s then (Raise SerialException, w)
          else get_valid_reading float_of_line ser default_timeout
                 (at_time (now w + 200000)
                    (set_port ser (with_written s (written s ++ [FETCH])) w))
        else (Raise SerialException, w)
    end.
Proof.
  unfold measure, reset_input_buffer, write, bind at 1 2 3 4, open_port.
  destruct (port ser w) as [s|] eqn:Hp; [|reflexivity].
  destruct (is_open s) eqn:Ho; [|reflexivity].
  unfold ret. rewrite Hp, Ho.
  destruct (write_fails s); [reflexivity|].
  unfold bind, update_port, time_sleep. rewrite now_set_port. reflexivity.
Qed.

Lemma iteration_eq filename st fs w :
  iteration float_of_line filename st fs w
  = match measure float_of_line Voltage w with
    | (Return v, w1) =>
        match measure float_of_line Current w1 with
        | (Return c, w2) =>
            if refused fs filename then (Raise OSError, w2)
            else
              (Return (cycle_state st v c,
                       log_rows filename [(now w2, cycle_sample st v c)] fs),
               at_time (Z.max (now w2) (now w + INTERVAL_us)) w2)
        | (Raise e, w2) => (Raise e, w2)
        | (OutOfFuel, w2) => (OutOfFuel, w2)
        end
    | (Raise e, w1) => (Raise e, w1)
    | (OutOfFuel, w1) => (OutOfFuel, w1)
    end.
Proof.
  unfold iteration, bind, time_time, time_sleep, ret, raise.
  destruct (measure float_of_line Voltage w) as [[v|e|] w1]; try reflexivity.
  destruct (measure float_of_line Current w1) as [[c|e|] w2]; try reflexivity.
  destruct (refused fs filename) eqn:Hr.
  - rewrite log_data_raises by exact Hr. reflexivity.
  - pose proof (log_data_writes (now w2, cycle_sample st v c) filename fs Hr)
      as E.
    cbn [fst snd] in E. rewrite E. do 2 f_equal. lia.
Qed.

Lemma reads_within_suffix longest s consumed rest :
  reads_within longest s -> incoming s = consumed ++ rest ->
  reads_within longest (with_incoming s rest).
Proof.
  intros [Ht Hd] Hi. split; [exact Ht|]. cbn [with_incoming incoming].
  rewrite Hi in Hd. apply Forall_app in Hd. apply Hd.
Qed.

Lemma reads_within_nonneg longest s : reads_within longest s -> 0 <= longest.
Proof. intros [Ht _]. lia. Qed.

(** The reader on a port that reads within [longest]. *)
Lemma reader_within ser longest w s r w' :
  port ser w = Some s -> is_open s = true -> reads_within longest s ->
  get_valid_reading float_of_line ser default_timeout w = (r, w') ->
  r <> OutOfFuel
  /\ now w <= now w' <= now w + (default_timeout - 1 + longest + poll_sleep)
  /\ port (other ser) w' = port (other ser) w
  /\ exists s', port ser w' = Some s' /\ reads_within longest s'.
Proof.
  intros Hp Ho Hr Hrun.
  pose proof (reads_within_nonneg longest s Hr) as Hl.
  pose proof (enough_fuel_enough ser default_timeout s w Hp) as [Hf Hm].
  destruct (loop_ends float_of_line ser default_timeout (now w) longest
              _ s w Hp Ho Hr Hf Hm)
    as (r0 & w0 & Hrun0 & Hnf & Hle & Hub & _).
  rewrite get_valid_reading_loop_eq in Hrun.
  rewrite Hrun in Hrun0. injection Hrun0 as <- <-.
  destruct (loop_frame float_of_line ser default_timeout (now w) _ s w r w'
              Hp Hrun) as (Hoth & consumed & Hc & Hs').
  split; [exact Hnf|]. split.
  { unfold default_timeout, poll_sleep in *. lia. }
  split; [exact Hoth|].
  eexists. split; [exact Hs'|].
  rewrite Hs' in Hc. cbn [with_incoming incoming] in Hc.
  eapply reads_within_suffix; [exact Hr|exact Hc].
Qed.

Lemma ports_within_at_time longest t w :
  ports_within longest w -> ports_within longest (at_time t w).
Proof. intros H. exact H. Qed.

Lemma ports_within_port longest ser w s :
  ports_within longest w -> port ser w = Some s -> reads_within longest s.
Proof. intros [Hv Hc] Hp. destruct ser; auto. Qed.

Lemma ports_within_of longest w w' ser s' :
  ports_within longest w ->
  port (other ser) w' = port (other ser) w ->
  port ser w' = Some s' -> reads_within longest s' ->
  ports_within longest w'.
Proof.
  intros [Hv Hc] Ho Hp Hr. destruct ser; cbn [other port] in *; split;
    intros s Hs; try (rewrite Ho in Hs; auto); congruence.
Qed.

(** A query on ports that read within [longest]. *)
Lemma measure_within ser longest w r w' :
  ports_within longest w ->
  measure float_of_line ser w = (r, w') ->
  ports_within longest w'
  /\ r <> OutOfFuel
  /\ (forall x, r = Return x ->
      now w + 200000 <= now w'
      <= now w + 200000 + (default_timeout - 1 + longest + poll_sleep)).
Proof.
  intros Hw Hrun. rewrite measure_eq in Hrun.
  destruct (port ser w) as [s|] eqn:Hp.
  2:{ injection Hrun as <- <-.
      split; [exact Hw|]. split; [discriminate|]. intros x Hx. discriminate Hx. }
  destruct (is_open s) eqn:Ho.
  2:{ injection Hrun as <- <-.
      split; [exact Hw|]. split; [discriminate|]. intros x Hx. discriminate Hx. }
  destruct (write_fails s).
  { injection Hrun as <- <-.
      split; [exact Hw|]. split; [discriminate|]. intros x Hx. discriminate Hx. }
  pose proof (ports_within_port longest ser w s Hw Hp) as Hr.
  set (s1 := with_written s (written s ++ [FETCH])) in *.
  set (w1 := at_time (now w + 200000) (set_port ser s1 w)) in *.
  assert (Hp1 : port ser w1 = Some s1).
  { unfold w1. rewrite port_at_time. apply port_set_port. }
  assert (Hr1 : reads_within longest s1) by exact Hr.
  assert (Hn1 : now w1 = now w + 200000) by reflexivity.
  assert (Ho1 : port (other ser) w1 = port (other ser) w).
  { unfold w1. rewrite port_at_time. apply port_other_set_port. }
  destruct (reader_within ser longest w1 s1 r w' Hp1 Ho Hr1 Hrun)
    as (Hnf & Hclock & Hoth & s' & Hp' & Hr').
  split.
  { apply (ports_within_of longest w w' ser s'); auto. congruence. }
  split; [exact Hnf|]. intros x _. lia.
Qed.

(** A query that returns has been sent to an open port, once. *)
Lemma measure_returns ser w x w' :
  measure float_of_line ser w = (Return x, w') ->
  exists s rest,
    port ser w = Some s /\ is_open s = true
    /\ port (other ser) w' = port (other ser) w
    /\ port ser w'
       = Some (with_incoming (with_written s (written s ++ [FETCH])) rest)
    /\ exists consumed, incoming s = consumed ++ rest.
Proof.
  intros Hrun. rewrite measure_eq in Hrun.
  destruct (port ser w) as [s|] eqn:Hp; [|discriminate].
  destruct (is_open s) eqn:Ho; [|discriminate].
  destruct (write_fails s); [discriminate|].
  set (s1 := with_written s (written s ++ [FETCH])) in *.
  set (w1 := at_time (now w + 200000) (set_port ser s1 w)) in *.
  assert (Hp1 : port ser w1 = Some s1).
  { unfold w1. rewrite port_at_time. apply port_set_port. }
  rewrite get_valid_reading_loop_eq in Hrun.
  destruct (loop_frame float_of_line ser default_timeout (now w1) _ s1 w1 _ w'
              Hp1 Hrun) as (Hoth & consumed & Hc & Hs').
  exists s, (skipn (List.length consumed) (incoming s1)).
  split; [reflexivity|]. split; [exact Ho|]. split.
  { rewrite Hoth. unfold w1. rewrite port_at_time. apply port_other_set_port. }
  split; [exact Hs'|].
  exists consumed. rewrite Hs' in Hc. exact Hc.
Qed.


(** An iteration that completes. *)
Lemma iteration_returns filename st fs w st' fs' w' :
  iteration float_of_line filename st fs w = (Return (st', fs'), w') ->
  exists v c w1 w2,
    measure float_of_line Voltage w = (Return v, w1)
    /\ measure float_of_line Current w1 = (Return c, w2)
    /\ st' = cycle_state st v c
    /\ fs' = log_rows filename [(now w2, cycle_sample st v c)] fs
    /\ w' = at_time (Z.max (now w2) (now w + INTERVAL_us)) w2
    /\ refused fs filename = false.
Proof.
  rewrite iteration_eq. intros H.
  destruct (measure float_of_line Voltage w) as [[v|e|] w1]; try discriminate.
  destruct (measure float_of_line Current w1) as [[c|e|] w2] eqn:Hc;
    try discriminate.
  destruct (refused fs filename); [discriminate|].
  injection H as <- <- <-. exists v, c, w1, w2. auto 7.
Qed.

Lemma iteration_within filename longest st fs w o w' :
  ports_within longest w ->
  iteration float_of_line filename st fs w = (o, w') ->
  ports_within longest w'
  /\ o <> OutOfFuel
  /\ forall st' fs', o = Return (st', fs') ->
       exists v c stamp,
         st' = cycle_state st v c
         /\ fs' = log_rows filename [(stamp, cycle_sample st v c)] fs
         /\ now w' = Z.max stamp (now w + INTERVAL_us)
         /\ now w + 400000 <= stamp
            <= now w + 2 * (200000 + (default_timeout - 1 + longest + poll_sleep)).
Proof.
  intros Hw. rewrite iteration_eq.
  destruct (measure float_of_line Voltage w) as [rv w1] eqn:Hv.
  destruct (measure_within Voltage longest w rv w1 Hw Hv) as (Hw1 & Hnv & Htv).
  destruct rv as [v|e|]; [| |congruence].
  2:{ intros H. injection H as <- <-.
      split; [exact Hw1|]. split; [discriminate|]. intros ? ? Hx.
      discriminate Hx. }
  destruct (measure float_of_line Current w1) as [rc w2] eqn:Hc.
  destruct (measure_within Current longest w1 rc w2 Hw1 Hc) as (Hw2 & Hnc & Htc).
  destruct rc as [c|e|]; [| |congruence].
  2:{ intros H. injection H as <- <-.
      split; [exact Hw2|]. split; [discriminate|]. intros ? ? Hx.
      discriminate Hx. }
  destruct (refused fs filename).
  { intros H. injection H as <- <-.
    split; [exact Hw2|]. split; [discriminate|]. intros ? ? Hx.
    discriminate Hx. }
  intros H. injection H as <- <-.
  split; [exact Hw2|]. split; [discriminate|].
  intros st' fs' Hx. injection Hx as <- <-.
  specialize (Htv v eq_refl). specialize (Htc c eq_refl).
  exists v, c, (now w2). repeat split; try reflexivity; lia.
Qed.

Lemma spaced_from gap from from' stamps :
  from' <= from -> spaced gap from stamps -> spaced gap from' stamps.
Proof. destruct stamps; cbn; [auto|]. intros ? [? ?]. split; [lia|auto]. Qed.

Lemma row_logged filename stamps rows stamp row fs :
  log_rows filename (combine stamps rows)
           (log_rows filename [(stamp, row)] fs)
  = log_rows filename (combine (stamp :: stamps) (row :: rows)) fs.
Proof. reflexivity. Qed.

(** The loop, iteration by iteration. *)
Lemma main_loop_trace filename :
  forall n st fs w o fs' w',
    main_loop float_of_line n filename st fs w = (o, fs', w') ->
    exists readings stamps,
      List.length stamps = List.length readings
      /\ fs' = log_rows filename (combine stamps (samples st readings)) fs
      /\ match o with
         | Return st' =>
             List.length readings = n
             /\ st' = fst (run st readings)
             /\ now w + Z.of_nat n * INTERVAL_us <= now w'
         | _ => (List.length readings < n)%nat
         end.
Proof.
  induction n as [|n IH]; intros st fs w o fs' w' H.
  - injection H as <- <- <-. exists [], []. repeat split. cbn. lia.
  - cbn [main_loop] in H.
    destruct (iteration float_of_line filename st fs w)
      as [[[st1 fs1]|e|] w1] eqn:Hit.
    + destruct (iteration_returns _ _ _ _ _ _ _ Hit)
        as (v & c & wa & wb & _ & _ & -> & -> & -> & _).
      destruct (IH _ _ _ _ _ _ H) as (readings & stamps & Hl & Hfs & Ho).
      exists ((v, c) :: readings), (now wb :: stamps).
      split; [cbn [List.length]; congruence|].
      split; [rewrite samples_cons, <- row_logged; exact Hfs|].
      destruct o as [st'|e|]; cbn [List.length]; try lia.
      destruct Ho as (Hn & Hst & Hclock).
      split; [congruence|]. split; [rewrite run_cons; exact Hst|].
      cbn [now at_time] in Hclock. lia.
    + injection H as <- <- <-. exists [], []. repeat split. cbn. lia.
    + injection H as <- <- <-. exists [], []. repeat split. cbn. lia.
Qed.

(** The loop on ports that read within [longest]. *)
Lemma main_loop_within filename longest :
  forall n st fs w o fs' w',
    ports_within longest w ->
    main_loop float_of_line n filename st fs w = (o, fs', w') ->
    o <> OutOfFuel
    /\ ports_within longest w'
    /\ exists rows,
        fs' = log_rows filename rows fs
        /\ spaced 400000 (now w) (map fst rows)
        /\ (forall st', o = Return st' ->
            now w' <= now w + Z.of_nat n * longest_iteration longest).
Proof.
  induction n as [|n IH]; intros st fs w o fs' w' Hw H.
  - injection H as <- <- <-. split; [discriminate|]. split; [exact Hw|].
    exists []. repeat split. intros _ _. cbn. lia.
  - cbn [main_loop] in H.
    destruct (iteration float_of_line filename st fs w) as [r w1] eqn:Hit.
    destruct (iteration_within filename longest st fs w r w1 Hw Hit)
      as (Hw1 & Hnf & Hret).
    destruct r as [[st1 fs1]|e|]; [| |congruence].
    + destruct (Hret st1 fs1 eq_refl)
        as (v & c & stamp & -> & -> & Hnow & Hstamp).
      destruct (IH _ _ _ _ _ _ Hw1 H) as (Ho & Hw' & rows & Hfs & Hsp & Hub).
      split; [exact Ho|]. split; [exact Hw'|].
      exists ((stamp, cycle_sample st v c) :: rows).
      split; [exact Hfs|]. split.
      * cbn [map fst spaced]. split; [lia|].
        apply (spaced_from 400000 (now w1)); [lia|exact Hsp].
      * intros st' Hst'. specialize (Hub st' Hst').
        pose proof (reads_within_nonneg longest) as Hl.
        unfold longest_iteration in *. lia.
    + injection H as <- <- <-. split; [discriminate|]. split; [exact Hw1|].
      exists []. repeat split. intros ? Hx. discriminate Hx.
Qed.


(** On an open port with no failing read ahead the reader raises
    nothing. *)
Lemma loop_raises_nothing ser timeout start :
  forall fuel s w e w',
    port ser w = Some s -> is_open s = true ->
    Forall (fun p => result p <> Broken) (incoming s) ->
    get_valid_reading_loop float_of_line fuel ser timeout start w
    <> (Raise e, w').
Proof.
  induction fuel as [|fuel IH]; intros s w e w' Hp Ho Hb Hrun;
    [discriminate|].
  cbn [get_valid_reading_loop] in Hrun.
  unfold bind at 1 in Hrun. unfold time_time in Hrun.
  destruct (now w - start <? timeout); [|discriminate].
  unfold bind at 1 in Hrun.
  destruct (incoming s) as [|p rest] eqn:Hi.
  - rewrite (readline_nil ser s w Hp Ho Hi) in Hrun.
    unfold bind at 1 in Hrun. cbn [time_sleep] in Hrun.
    refine (IH s _ e w' _ Ho _ Hrun).
    + rewrite !port_at_time. exact Hp.
    + rewrite Hi. constructor.
  - rewrite (readline_cons ser s p rest w Hp Ho Hi) in Hrun.
    inversion Hb as [|? ? Hbp Hbr]; subst.
    destruct (result p) as [[|b line]|]; [| |congruence].
    + unfold bind at 1 in Hrun. cbn [time_sleep] in Hrun.
      refine (IH (with_incoming s rest) _ e w' _ Ho Hbr Hrun).
      rewrite port_at_time. apply port_set_port.
    + destruct (float_of_line (b :: line)); [discriminate|].
      refine (IH (with_incoming s rest) _ e w' _ Ho Hbr Hrun).
      apply port_set_port.
Qed.

Lemma answers_suffix s out consumed rest :
  answers s -> incoming s = consumed ++ rest ->
  answers (with_incoming (with_written s out) rest).
Proof.
  intros (Ho & Hf & Hb) Hi. repeat split; auto.
  cbn [with_incoming incoming]. rewrite Hi in Hb.
  apply Forall_app in Hb. apply Hb.
Qed.

(** A meter that answers is read. *)
Lemma measure_answers ser longest w :
  meters_answer longest w ->
  exists x w',
    measure float_of_line ser w = (Return x, w')
    /\ meters_answer longest w'.
Proof.
  intros Hw. destruct (Hw ser) as (s & Hp & Ha & Hr).
  destruct (measure float_of_line ser w) as [r w'] eqn:Hrun.
  assert (Hret : exists x, r = Return x).
  { pose proof Hrun as Hrun'. rewrite measure_eq, Hp in Hrun'.
    destruct Ha as (Ho & Hf & Hb). rewrite Ho, Hf in Hrun'.
    set (s1 := with_written s (written s ++ [FETCH])) in *.
    set (w1 := at_time (now w + 200000) (set_port ser s1 w)) in *.
    assert (Hp1 : port ser w1 = Some s1).
    { unfold w1. rewrite port_at_time. apply port_set_port. }
    destruct (reader_within ser longest w1 s1 r w' Hp1 Ho Hr Hrun')
      as (Hnf & _).
    destruct r as [x|e|]; [eauto| |congruence].
    rewrite get_valid_reading_loop_eq in Hrun'.
    exfalso. exact (loop_raises_nothing ser default_timeout (now w1) _ s1 w1
                      e w' Hp1 Ho Hb Hrun'). }
  destruct Hret as [x ->]. exists x, w'. split; [reflexivity|].
  destruct (measure_returns ser w x w' Hrun)
    as (s0 & rest & Hp0 & _ & Hoth & Hp' & consumed & Hi).
  assert (s0 = s) by congruence. subst s0.
  intros ser0.
  assert (Hcase : ser0 = ser \/ ser0 = other ser)
    by (destruct ser0, ser; auto).
  destruct Hcase as [->| ->].
  - eexists. split; [exact Hp'|]. split.
    + eapply answers_suffix; eauto.
    + eapply reads_within_suffix; [exact Hr|exact Hi].
  - rewrite Hoth. apply Hw.
Qed.

Lemma meters_answer_at_time longest t w :
  meters_answer longest w -> meters_answer longest (at_time t w).
Proof. intros H ser. rewrite port_at_time. apply H. Qed.

Lemma iteration_answers filename longest st fs w :
  meters_answer longest w -> refused fs filename = false ->
  exists st' fs' w',
    iteration float_of_line filename st fs w = (Return (st', fs'), w')
    /\ meters_answer longest w' /\ refused fs' filename = false.
Proof.
  intros Hw Hr. rewrite iteration_eq.
  destruct (measure_answers Voltage longest w Hw) as (v & w1 & -> & Hw1).
  destruct (measure_answers Current longest w1 Hw1) as (c & w2 & -> & Hw2).
  rewrite Hr. do 3 eexists. split; [reflexivity|]. split.
  - apply meters_answer_at_time, Hw2.
  - rewrite log_rows_refused. exact Hr.
Qed.

(** X11. After [n] completed iterations each meter has been sent the
    query [n] times and nothing else, its port is as open as it was, and
    what is left to read is what was pending less a prefix: the loop
    never skips a query, never repeats one, and never sends anything but
    the query. *)
Theorem loop_sends_one_query_per_iteration :
  forall filename ser n st fs w st' fs' w' s,
    main_loop float_of_line n filename st fs w = (Return st', fs', w') ->
    port ser w = Some s ->
    exists consumed rest,
      incoming s = consumed ++ rest
      /\ port ser w'
         = Some (with_incoming
                   (with_written s (written s ++ repeat FETCH n)) rest).
Proof.
  intros filename ser.
  induction n as [|n IH]; intros st fs w st' fs' w' s H Hp.
  - injection H as <- <- <-. exists [], (incoming s).
    split; [reflexivity|]. rewrite Hp. cbn [repeat]. rewrite app_nil_r.
    destruct s; reflexivity.
  - cbn [main_loop] in H.
    destruct (iteration float_of_line filename st fs w)
      as [[[st1 fs1]|e|] w1] eqn:Hit; try discriminate.
    destruct (iteration_returns _ _ _ _ _ _ _ Hit)
      as (v & c & wa & wb & Hv & Hc & _ & _ & -> & _).
    destruct (measure_returns Voltage w v wa Hv)
      as (sv & restv & Hpv & _ & Hov & Hpv' & consv & Hiv).
    destruct (measure_returns Current wa c wb Hc)
      as (sc & restc & Hpc & _ & Hoc & Hpc' & consc & Hic).
    cbn [other] in Hov, Hoc.
    assert (Hp1 : exists cons1 rest1,
               incoming s = cons1 ++ rest1
               /\ port ser (at_time (Z.max (now wb) (now w + INTERVAL_us)) wb)
                  = Some (with_incoming
                            (with_written s (written s ++ [FETCH])) rest1)).
    { rewrite port_at_time. destruct ser.
      - assert (sv = s) by congruence. subst sv.
        exists consv, restv. split; [exact Hiv|]. congruence.
      - assert (sc = s) by congruence. subst sc.
        exists consc, restc. split; [exact Hic|]. exact Hpc'. }
    destruct Hp1 as (cons1 & rest1 & Hi1 & Hp1).
    destruct (IH _ _ _ _ _ _ _ H Hp1) as (cons2 & rest2 & Hi2 & Hp2).
    cbn [with_incoming with_written incoming written] in Hi2, Hp2.
    exists (cons1 ++ cons2), rest2. split.
    + rewrite Hi1, Hi2. apply app_assoc.
    + rewrite Hp2. cbn [repeat]. rewrite <- app_assoc. reflexivity.
Qed.


Lemma rows_of_cons st v c t trace :
  rows_of st ((v, c, t) :: trace)
  = (t, cycle_sample st v c) :: rows_of (cycle_state st v c) trace.
Proof. unfold rows_of. cbn [map fst snd]. rewrite samples_cons. reflexivity. Qed.

Lemma rows_of_length st trace :
  List.length (rows_of st trace) = List.length trace.
Proof.
  unfold rows_of. rewrite length_combine, samples_length, !length_map.
  apply Nat.min_id.
Qed.

Lemma delivered_succ n w v c w1 w2 :
  measure float_of_line Voltage w = (Return v, w1) ->
  measure float_of_line Current w1 = (Return c, w2) ->
  delivered float_of_line (S n) w
  = (v, c, now w2)
    :: delivered float_of_line n
         (at_time (Z.max (now w2) (now w + INTERVAL_us)) w2).
Proof.
  intros Hv Hc. cbn [delivered]. rewrite Hv, Hc. do 3 f_equal. lia.
Qed.

(** The loop against what the readers deliver. *)
Lemma main_loop_delivered filename :
  forall n st fs w o fs' w',
    main_loop float_of_line n filename st fs w = (o, fs', w') ->
    if refused fs filename then
      fs' = fs /\ (delivered float_of_line n w <> [] -> o = Raise OSError)
    else
      fs' = log_rows filename (rows_of st (delivered float_of_line n w)) fs
      /\ match o with
         | Return st' =>
             List.length (delivered float_of_line n w) = n
             /\ st' = fst (run st (map fst (delivered float_of_line n w)))
         | _ => (List.length (delivered float_of_line n w) < n)%nat
         end.
Proof.
  induction n as [|n IH]; intros st fs w o fs' w' H.
  - injection H as <- <- <-. cbn [delivered].
    destruct (refused fs filename); repeat split. congruence.
  - cbn [main_loop] in H. rewrite iteration_eq in H.
    destruct (measure float_of_line Voltage w) as [[v|e|] w1] eqn:Hv.
    + destruct (measure float_of_line Current w1) as [[c|e|] w2] eqn:Hc.
      * rewrite (delivered_succ n w v c w1 w2 Hv Hc).
        destruct (refused fs filename) eqn:Hr.
        -- injection H as <- <- <-. split; reflexivity.
        -- apply IH in H. rewrite log_rows_refused, Hr in H.
           destruct H as [Hfs Ho]. rewrite rows_of_cons. split; [exact Hfs|].
           cbn [List.length map fst]. rewrite run_cons. cbn [fst].
           destruct o; [split; [f_equal|]; apply Ho|lia|lia].
      * cbn [delivered]. rewrite Hv, Hc.
        destruct (refused fs filename); injection H as <- <- <-;
          repeat split; cbn; try congruence; lia.
      * cbn [delivered]. rewrite Hv, Hc.
        destruct (refused fs filename); injection H as <- <- <-;
          repeat split; cbn; try congruence; lia.
    + cbn [delivered]. rewrite Hv.
      destruct (refused fs filename); injection H as <- <- <-;
        repeat split; cbn; try congruence; lia.
    + cbn [delivered]. rewrite Hv.
      destruct (refused fs filename); injection H as <- <- <-;
        repeat split; cbn; try congruence; lia.
Qed.

End LoopFacts.


Lemma timestamps_rows rows : timestamps (map row_of rows) = map fst rows.
Proof.
  induction rows as [|r rows IH]; [reflexivity|].
  cbn [map]. unfold timestamps in *. cbn [flat_map row_of app].
  rewrite IH. reflexivity.
Qed.

Lemma log_rows_fresh filename rows (fs : files) lines :
  fs filename = None ->
  log_rows filename rows fs filename = Some lines ->
  timestamps lines = map fst rows.
Proof.
  intros Hf H. destruct rows as [|r rows].
  - cbn in H. congruence.
  - rewrite log_rows_cons in H.
    rewrite (log_rows_existing filename rows _ _
               (log_rows_first filename r fs)) in H.
    rewrite Hf in H. injection H as <-.
    cbn [app].
    change (timestamps (map row_of (r :: rows)) = map fst (r :: rows)).
    apply timestamps_rows.
Qed.

(** X12. The log against what the readers return. On a path that can be
    written, whether the loop completes its [n] iterations or an exception
    ends it earlier, the log has gained one row for each iteration in
    which both readers returned, and nothing else: the rows are, in order,
    the samples of the run of cycles over the very readings the two
    readers returned, each with the clock at that moment, and when all
    [n] iterations complete the locals are that run's final state. An
    iteration in which a reader raises logs no row. On a path that cannot
    be written nothing is logged, and the first iteration whose readers
    both return ends the loop with [OSError]. *)
Theorem loop_logs_completed_iterations :
  forall float_of_line n filename st fs w o fs' w',
    main_loop float_of_line n filename st fs w = (o, fs', w') ->
    (refused fs filename = false ->
     fs' = log_rows filename (rows_of st (delivered float_of_line n w)) fs
     /\ List.length (rows_of st (delivered float_of_line n w))
        = List.length (delivered float_of_line n w)
     /\ match o with
        | Return st' =>
            List.length (delivered float_of_line n w) = n
            /\ st' = fst (run st (map fst (delivered float_of_line n w)))
        | _ => (List.length (delivered float_of_line n w) < n)%nat
        end)
    /\ (refused fs filename = true ->
        fs' = fs
        /\ (delivered float_of_line n w <> [] -> o = Raise OSError)).
Proof.
  intros f n filename st fs w o fs' w' H.
  pose proof (main_loop_delivered f filename n st fs w o fs' w' H) as Hd.
  split; intros Hr; rewrite Hr in Hd.
  - destruct Hd as [Hfs Ho]. split; [exact Hfs|].
    split; [apply rows_of_length|exact Ho].
  - exact Hd.
Qed.

(** X13. When no read takes a negative time, the rows the loop logs carry
    timestamps that increase strictly, by 0.4 s at least from one row to
    the next (the two waits of 0.2 s after the queries), the first being
    0.4 s at least after the loop was entered: no timestamp repeats. In a
    log file that was not there before, these are all its timestamps. *)
Theorem log_timestamps_increase :
  forall float_of_line longest n filename st fs w o fs' w',
    ports_within longest w ->
    main_loop float_of_line n filename st fs w = (o, fs', w') ->
    exists rows,
      fs' = log_rows filename rows fs
      /\ spaced 400000 (now w) (map fst rows)
      /\ forall lines,
           fs filename = None -> fs' filename = Some lines ->
           timestamps lines = map fst rows.
Proof.
  intros f longest n filename st fs w o fs' w' Hw H.
  destruct (main_loop_within f filename longest n st fs w o fs' w' Hw H)
    as (_ & _ & rows & Hfs & Hsp & _).
  exists rows. split; [exact Hfs|]. split; [exact Hsp|].
  intros lines Hf Hl. rewrite Hfs in Hl.
  exact (log_rows_fresh filename rows fs lines Hf Hl).
Qed.

(** X14. [n] completed iterations take [n] times [INTERVAL] at least,
    whatever the ports do: an iteration that overran is not made up for
    by a shorter one. When no read takes longer than [longest] they take
    [n] times [longest_iteration longest] at most. *)
Theorem loop_keeps_its_interval :
  forall float_of_line n filename st fs w st' fs' w',
    main_loop float_of_line n filename st fs w = (Return st', fs', w') ->
    now w + Z.of_nat n * INTERVAL_us <= now w'
    /\ forall longest,
         ports_within longest w ->
         now w' <= now w + Z.of_nat n * longest_iteration longest.
Proof.
  intros f n filename st fs w st' fs' w' H. split.
  - destruct (main_loop_trace f filename n st fs w _ fs' w' H)
      as (readings & stamps & _ & _ & _ & _ & Hclock).
    exact Hclock.
  - intros longest Hw.
    destruct (main_loop_within f filename longest n st fs w _ fs' w' Hw H)
      as (_ & _ & rows & _ & _ & Hub).
    exact (Hub st' eq_refl).
Qed.

(** X15. While both meters stay on the bus (ports open, writes taken, no
    read raising, no read of negative length) and the log file can be
    written, the loop neither raises nor hangs: any number of iterations
    completes, and then the meters are still on the bus and the log file
    can still be written. *)
Theorem loop_goes_on_while_meters_answer :
  forall float_of_line longest n filename st fs w,
    meters_answer longest w -> refused fs filename = false ->
    exists st' fs' w',
      main_loop float_of_line n filename st fs w = (Return st', fs', w')
      /\ meters_answer longest w' /\ refused fs' filename = false.
Proof.
  intros f longest. induction n as [|n IH]; intros filename st fs w Hw Hr.
  - exists st, fs, w. split; [reflexivity|]. split; [exact Hw|exact Hr].
  - destruct (iteration_answers f filename longest st fs w Hw Hr)
      as (st1 & fs1 & w1 & Hit & Hw1 & Hr1).
    destruct (IH filename st1 fs1 w1 Hw1 Hr1) as (st' & fs' & w' & H & Hw').
    exists st', fs', w'. split; [|exact Hw'].
    cbn [main_loop]. rewrite Hit. exact H.
Qed.

Lemma two_cycles_run :
  main_loop PyFloat.float_of_line 2 default_filename initial_state empty_disk
            two_cycles
  = (Return (fst (run initial_state bench_readings)),
     log_rows default_filename
              (combine bench_stamps (samples initial_state bench_readings))
              empty_disk,
     mkWorld 2000000 (Some (queried 2)) (Some (queried 2))).
Proof. vm_compute. reflexivity. Qed.

Lemma current_lost_run :
  main_loop PyFloat.float_of_line 2 default_filename initial_state empty_disk
            current_lost
  = (Raise SerialException,
     log_rows default_filename
              (combine [470000] (samples initial_state [(Some 1.5, Some 0.01)]%float))
              empty_disk,
     mkWorld 1470000 (Some (queried 2)) (Some (queried 2))).
Proof. vm_compute. reflexivity. Qed.

Lemma opened_reads_within ps :
  Forall (fun p => 0 <= delay p <= TIMEOUT) ps ->
  reads_within TIMEOUT (opened ps).
Proof. intros H. split; [cbn; unfold TIMEOUT; lia|exact H]. Qed.

Lemma bench_within vs cs :
  Forall (fun p => 0 <= delay p <= TIMEOUT) vs ->
  Forall (fun p => 0 <= delay p <= TIMEOUT) cs ->
  ports_within TIMEOUT (bench vs cs).
Proof.
  intros Hv Hc. split; intros s H; injection H as <-;
    apply opened_reads_within; assumption.
Qed.

Lemma two_cycles_within : ports_within TIMEOUT two_cycles.
Proof. apply bench_within; repeat constructor; cbn; unfold TIMEOUT; lia. Qed.

Lemma two_cycles_answer : meters_answer TIMEOUT two_cycles.
Proof.
  intros [|]; eexists; (split; [reflexivity|]); split.
  - repeat split. repeat constructor; discriminate.
  - apply opened_reads_within. repeat constructor; cbn; unfold TIMEOUT; lia.
  - repeat split. repeat constructor; discriminate.
  - apply opened_reads_within. repeat constructor; cbn; unfold TIMEOUT; lia.
Qed.

(** The current meter is lost in the second iteration: one row. *)
Lemma loop_logs_completed_iterations_witness :
  refused empty_disk default_filename = false
  /\ log_rows default_filename
       (combine [470000] (samples initial_state [(Some 1.5, Some 0.01)]%float))
       empty_disk
     = log_rows default_filename
         (rows_of initial_state (delivered PyFloat.float_of_line 2 current_lost))
         empty_disk
  /\ (List.length (delivered PyFloat.float_of_line 2 current_lost) < 2)%nat.
Proof.
  split; [reflexivity|].
  destruct (proj1 (loop_logs_completed_iterations PyFloat.float_of_line 2
                     default_filename initial_state empty_disk current_lost
                     _ _ _ current_lost_run) eq_refl) as (Hfs & _ & Ho).
  split; [exact Hfs|exact Ho].
Defined.

Lemma log_timestamps_increase_witness :
  exists rows,
    log_rows default_filename
      (combine bench_stamps (samples initial_state bench_readings)) empty_disk
    = log_rows default_filename rows empty_disk
    /\ spaced 400000 0 (map fst rows)
    /\ forall lines,
         empty_disk default_filename = None ->
         log_rows default_filename
           (combine bench_stamps (samples initial_state bench_readings))
           empty_disk default_filename = Some lines ->
         timestamps lines = map fst rows.
Proof.
  exact (log_timestamps_increase PyFloat.float_of_line TIMEOUT 2
           default_filename initial_state empty_disk two_cycles _ _ _
           two_cycles_within two_cycles_run).
Defined.

Lemma loop_keeps_its_interval_witness :
  0 + 2 * INTERVAL_us <= 2000000
  /\ forall longest,
       ports_within longest two_cycles ->
       2000000 <= 0 + 2 * longest_iteration longest.
Proof.
  exact (loop_keeps_its_interval PyFloat.float_of_line 2
           default_filename initial_state empty_disk two_cycles _ _ _
           two_cycles_run).
Defined.

Lemma loop_goes_on_while_meters_answer_witness :
  exists st' fs' w',
    main_loop PyFloat.float_of_line 2 default_filename initial_state
              empty_disk two_cycles
    = (Return st', fs', w')
    /\ meters_answer TIMEOUT w' /\ refused fs' default_filename = false.
Proof.
  exact (loop_goes_on_while_meters_answer PyFloat.float_of_line TIMEOUT 2
           default_filename initial_state empty_disk two_cycles
           two_cycles_answer eq_refl).
Defined.

Lemma loop_sends_one_query_per_iteration_witness :
  exists consumed rest,
    [answer 30000 "+1.5E+00"; answer 30000 "+1.4E+00"] = consumed ++ rest
    /\ Some (queried 2)
       = Some (with_incoming
                 (with_written
                    (opened [answer 30000 "+1.5E+00"; answer 30000 "+1.4E+00"])
                    ([] ++ repeat FETCH 2)) rest).
Proof.
  exact (loop_sends_one_query_per_iteration PyFloat.float_of_line
           default_filename Voltage 2 initial_state empty_disk two_cycles
           _ _ _ _ two_cycles_run eq_refl).
Defined.

(** ** Teardown, again *)

(** What the [finally] block leaves. *)
Lemma finally_block_ends :
  forall w r w',
    finally_block w = (r, w') ->
    (r = Return tt \/ r = Raise SerialException)
    /\ now w' = now w
    /\ (forall ser, port ser w = None -> port ser w' = None)
    /\ (r = Return tt ->
        all_closed w' /\ finally_block w' = (Return tt, w')).
Proof.
  intros w r w' H. rewrite finally_block_eq in H.
  destruct w as [t [sv|] [sc|]];
    try destruct sv as [[|] ? ? ? [|] [|]];
    try destruct sc as [[|] ? ? ? [|] [|]];
    cbn in H; injection H as <- <-;
    (split; [auto|]); (split; [reflexivity|]);
    (split; [intros [|] Hs; cbn in *; congruence|]);
    intros Hr; try discriminate Hr;
    (split; [|reflexivity]);
    intros [|] s Hs; cbn in Hs; try discriminate Hs;
    injection Hs as <-; reflexivity.
Qed.

(** X16. The [finally] block raises nothing but [SerialException], not
    even with a name unbound, and leaves the clock and the unbound names
    alone. When it returns, no port is left open, and running it once more
    changes nothing. *)
Theorem teardown_leaves_nothing_open :
  forall w r w',
    finally_block w = (r, w') ->
    (r = Return tt \/ r = Raise SerialException)
    /\ now w' = now w
    /\ (forall ser, port ser w = None -> port ser w' = None)
    /\ (r = Return tt ->
        all_closed w' /\ finally_block w' = (Return tt, w')).
Proof. exact finally_block_ends. Qed.

Lemma teardown_leaves_nothing_open_witness :
  (Return tt = Return tt \/ Return tt = Raise SerialException)
  /\ 2000000 = 2000000
  /\ (forall ser, port ser (mkWorld 2000000 (Some (queried 2)) None) = None ->
      port ser (mkWorld 2000000
                  (Some (closed (with_written (queried 2)
                                   (repeat FETCH 2 ++ [DISP_ENAB])))) None)
      = None)
  /\ (Return tt = Return tt ->
      all_closed (mkWorld 2000000
                    (Some (closed (with_written (queried 2)
                                     (repeat FETCH 2 ++ [DISP_ENAB])))) None)
      /\ finally_block
           (mkWorld 2000000
              (Some (closed (with_written (queried 2)
                               (repeat FETCH 2 ++ [DISP_ENAB])))) None)
         = (Return tt,
            mkWorld 2000000
              (Some (closed (with_written (queried 2)
                               (repeat FETCH 2 ++ [DISP_ENAB])))) None)).
Proof.
  exact (teardown_leaves_nothing_open
           (mkWorld 2000000 (Some (queried 2)) None) _ _ eq_refl).
Defined.

(** ** [main] *)

Example utf8_accepts :
  Utf8.decodes (bytes ("OWON,XDM1041,23120418,V3.1.0,3" ++ CRLF)) = true
  /\ Utf8.decodes ["195"; "169"; "226"; "130"; "172"; "240"; "159"; "148"; "140"]%byte = true
  /\ Utf8.decodes [] = true.
Proof. repeat split. Qed.

Example utf8_refuses :
  Utf8.decodes ["192"; "128"]%byte = false
  /\ Utf8.decodes ["237"; "160"; "128"]%byte = false
  /\ Utf8.decodes ["244"; "144"; "128"; "128"]%byte = false
  /\ Utf8.decodes ["128"]%byte = false
  /\ Utf8.decodes ["226"; "130"]%byte = false
  /\ Utf8.decodes ["255"]%byte = false.
Proof. repeat split. Qed.

Lemma query_id_eq ser w s :
  port ser w = Some s -> is_open s = true ->
  query_id ser w
  = if write_fails s then (Raise SerialException, w)
    else
      let s1 := with_written s (written s ++ [IDN]) in
      match incoming s with
      | [] =>
          (Return true,
           set_port ser s1 (at_time (now w + 500000 + port_timeout s) w))
      | p :: rest =>
          (match result p with
           | Line line => Return (Utf8.decodes line)
           | Broken => Raise SerialException
           end,
           set_port ser (with_incoming s1 rest)
                    (at_time (now w + 500000 + delay p) w))
      end.
Proof.
  intros Hp Ho.
  destruct ser, w as [t sv sc]; cbn in Hp; subst;
    destruct s as [o pt inc wr wf cf]; cbn in Ho; subst;
    destruct wf, inc as [|[d [l|]] rest]; reflexivity.
Qed.

(** The port a device gives when opened. *)
Lemma startup_without_voltage dc w :
  startup None dc w = (Raise SerialException, w).
Proof. reflexivity. Qed.

(** X17. When the voltage port cannot be opened, [main] ends on the
    caught [SerialException] with nothing opened, written or logged. When
    only the current port cannot be opened, the voltage meter, which has
    been sent nothing yet, gets the display command and its port is
    closed; should that raise, the exception leaves [main]. *)
Theorem main_when_a_port_cannot_be_opened :
  forall float_of_line n filename fs t,
    (forall current_device,
       main float_of_line None current_device n filename fs (unbound t)
       = (SerialError, fs, unbound t))
    /\ forall d,
         main float_of_line (Some d) None n filename fs (unbound t)
         = let s := mkSerial true TIMEOUT (incoming d) (written d)
                             (write_fails d) (close_fails d) in
           (if snd (restore_and_close (Some s))
            then Escaped (Exn SerialException) else SerialError,
            fs, mkWorld t (fst (restore_and_close (Some s))) None).
Proof.
  intros f n filename fs t. split.
  - reflexivity.
  - intros [o pt inc wr [|] [|]]; reflexivity.
Qed.

Ltac startup_cases H :=
  cbn -[IDN ECHO_OFF FUNC_VOLT_DC VOLT_DC_RANG_20 FUNC_CURR_DC
        CURR_DC_RANG_002 Utf8.decodes Z.add TIMEOUT] in H.

Ltac startup_step H :=
  startup_cases H; try change (Utf8.decodes []) with true in H;
  startup_cases H; try discriminate H.

(** The startup, when it succeeds. *)
Lemma startup_returns :
  forall dv dc t w',
    startup dv dc (unbound t) = (Return true, w') ->
    exists d d',
      dv = Some d /\ dc = Some d'
      /\ w' = mkWorld (t + 4800000 + first_read d + first_read d')
                (Some (mkSerial true TIMEOUT (tl (incoming d))
                         (written d ++ [IDN; ECHO_OFF; FUNC_VOLT_DC;
                                        VOLT_DC_RANG_20])
                         false (close_fails d)))
                (Some (mkSerial true TIMEOUT (tl (incoming d'))
                         (written d' ++ [IDN; ECHO_OFF; FUNC_CURR_DC;
                                         CURR_DC_RANG_002])
                         false (close_fails d'))).
Proof.
  intros [[o pt inc wr wf cf]|] [[o' pt' inc' wr' wf' cf']|] t w' H;
    try discriminate H.
  exists (mkSerial o pt inc wr wf cf), (mkSerial o' pt' inc' wr' wf' cf').
  split; [reflexivity|]. split; [reflexivity|].
  unfold first_read. cbn [incoming written close_fails tl delay].
  destruct wf; [discriminate H|].
  destruct inc as [|[dl [l|]] rest]; startup_step H;
    try (destruct (Utf8.decodes l); startup_step H);
    (destruct wf'; [discriminate H|]);
    destruct inc' as [|[dl' [l'|]] rest']; startup_step H;
    try (destruct (Utf8.decodes l'); startup_step H);
    injection H as <-; cbn [tl delay]; rewrite <- !app_assoc; cbn [app];
    cbv [at_time with_written with_incoming now ser_voltage ser_current
         is_open port_timeout incoming written write_fails close_fails];
    f_equal; lia.
Qed.

(** X18. When the startup succeeds, both devices were there, each meter
    has been sent its identity query and then the three setup commands, in
    this order and nothing else, one answer of each has been read, and
    4.8 s have passed besides the two reads. *)
Theorem startup_sends_commands_in_order :
  forall dv dc t w',
    startup dv dc (unbound t) = (Return true, w') ->
    exists d d',
      dv = Some d /\ dc = Some d'
      /\ w' = mkWorld (t + 4800000 + first_read d + first_read d')
                (Some (mkSerial true TIMEOUT (tl (incoming d))
                         (written d ++ [IDN; ECHO_OFF; FUNC_VOLT_DC;
                                        VOLT_DC_RANG_20])
                         false (close_fails d)))
                (Some (mkSerial true TIMEOUT (tl (incoming d'))
                         (written d' ++ [IDN; ECHO_OFF; FUNC_CURR_DC;
                                         CURR_DC_RANG_002])
                         false (close_fails d'))).
Proof. exact startup_returns. Qed.

(** The startup raises nothing but [SerialException]. *)
Lemma startup_raises dv dc t r w1 :
  startup dv dc (unbound t) = (r, w1) ->
  r <> OutOfFuel /\ forall e, r = Raise e -> e = SerialException.
Proof.
  assert (Hend : forall (r0 : outcome bool) (w0 : world),
             (r0, w0) = (r, w1) ->
             (r0 <> OutOfFuel /\
              forall e, r0 = Raise e -> e = SerialException) ->
             r <> OutOfFuel /\ forall e, r = Raise e -> e = SerialException).
  { intros r0 w0 H0 Hr0. injection H0 as <- <-. exact Hr0. }
  destruct dv as [[o pt inc wr wf cf]|], dc as [[o' pt' inc' wr' wf' cf']|];
    intros H;
    try (eapply Hend; [exact H|]; split; [discriminate|congruence]).
  destruct wf;
    [eapply Hend; [exact H|]; split; [discriminate|congruence]|].
  destruct inc as [|[dl [l|]] rest]; startup_cases H;
    try change (Utf8.decodes []) with true in H; startup_cases H;
    try (destruct (Utf8.decodes l); startup_cases H);
    try (eapply Hend; [exact H|]; split; [discriminate|congruence]);
    (destruct wf';
     [eapply Hend; [exact H|]; split; [discriminate|congruence]|]);
    destruct inc' as [|[dl' [l'|]] rest']; startup_cases H;
    try change (Utf8.decodes []) with true in H; startup_cases H;
    try (destruct (Utf8.decodes l'); startup_cases H);
    eapply Hend; try exact H; split; try discriminate; congruence.
Qed.

Section MainFacts.

Variable float_of_line : list byte -> option float.

(** With its name bound, the reader raises nothing but
    [SerialException]. *)
Lemma loop_raises_serial ser timeout start :
  forall fuel s w e w',
    port ser w = Some s ->
    get_valid_reading_loop float_of_line fuel ser timeout start w
    = (Raise e, w') ->
    e = SerialException.
Proof.
  induction fuel as [|fuel IH]; intros s w e w' Hp Hrun; [discriminate|].
  cbn [get_valid_reading_loop] in Hrun.
  unfold bind at 1 in Hrun. unfold time_time in Hrun.
  destruct (now w - start <? timeout); [|discriminate].
  unfold bind at 1 in Hrun.
  destruct (is_open s) eqn:Ho.
  2:{ rewrite (readline_closed ser s w Hp Ho) in Hrun. congruence. }
  destruct (incoming s) as [|p rest] eqn:Hi.
  - rewrite (readline_nil ser s w Hp Ho Hi) in Hrun.
    unfold bind at 1 in Hrun. cbn [time_sleep] in Hrun.
    refine (IH s _ e w' _ Hrun). rewrite !port_at_time. exact Hp.
  - rewrite (readline_cons ser s p rest w Hp Ho Hi) in Hrun.
    destruct (result p) as [[|b line]|]; [| |congruence].
    + unfold bind at 1 in Hrun. cbn [time_sleep] in Hrun.
      refine (IH (with_incoming s rest) _ e w' _ Hrun).
      rewrite port_at_time. apply port_set_port.
    + destruct (float_of_line (b :: line)); [discriminate|].
      refine (IH (with_incoming s rest) _ e w' _ Hrun).
      apply port_set_port.
Qed.

(** A query keeps both names bound, and with its name bound raises
    nothing but [SerialException]. *)
Lemma measure_bound ser w r w' :
  (forall ser0, port ser0 w <> None) ->
  measure float_of_line ser w = (r, w') ->
  (forall ser0, port ser0 w' <> None)
  /\ forall e, r = Raise e -> e = SerialException.
Proof.
  intros Hb Hrun. rewrite measure_eq in Hrun.
  destruct (port ser w) as [s|] eqn:Hp; [|destruct (Hb ser Hp)].
  destruct (is_open s) eqn:Ho.
  2:{ injection Hrun as <- <-. split; [exact Hb|congruence]. }
  destruct (write_fails s).
  { injection Hrun as <- <-. split; [exact Hb|congruence]. }
  set (s1 := with_written s (written s ++ [FETCH])) in *.
  set (w1 := at_time (now w + 200000) (set_port ser s1 w)) in *.
  assert (Hp1 : port ser w1 = Some s1).
  { unfold w1. rewrite port_at_time. apply port_set_port. }
  rewrite get_valid_reading_loop_eq in Hrun.
  destruct (loop_frame float_of_line ser default_timeout (now w1) _ s1 w1 _ w'
              Hp1 Hrun) as (Hoth & consumed & _ & Hs').
  split.
  - intros ser0.
    assert (Hcase : ser0 = ser \/ ser0 = other ser)
      by (destruct ser0, ser; auto).
    destruct Hcase as [->| ->]; [congruence|].
    rewrite Hoth. unfold w1. rewrite port_at_time, port_other_set_port.
    apply Hb.
  - intros e ->.
    exact (loop_raises_serial ser default_timeout (now w1) _ s1 w1 e w'
             Hp1 Hrun).
Qed.

Lemma iteration_bound filename st fs w r w' :
  (forall ser0, port ser0 w <> None) ->
  iteration float_of_line filename st fs w = (r, w') ->
  (forall ser0, port ser0 w' <> None)
  /\ forall e, r = Raise e ->
       e = SerialException \/ (e = OSError /\ refused fs filename = true).
Proof.
  intros Hb. rewrite iteration_eq.
  destruct (measure float_of_line Voltage w) as [rv w1] eqn:Hv.
  destruct (measure_bound Voltage w rv w1 Hb Hv) as (Hb1 & Hev).
  destruct rv as [v|e|].
  2:{ intros H. injection H as <- <-. split; [exact Hb1|].
      intros e0 He0. left. apply Hev. congruence. }
  2:{ intros H. injection H as <- <-. split; [exact Hb1|]. discriminate. }
  destruct (measure float_of_line Current w1) as [rc w2] eqn:Hc.
  destruct (measure_bound Current w1 rc w2 Hb1 Hc) as (Hb2 & Hec).
  destruct rc as [c|e|].
  - destruct (refused fs filename); intros H; injection H as <- <-.
    + split; [exact Hb2|]. intros e0 He0. right. split; congruence.
    + split; [|discriminate]. intros ser0. rewrite port_at_time. apply Hb2.
  - intros H; injection H as <- <-.
    split; [exact Hb2|]. intros e0 He0. left. apply Hec. congruence.
  - intros H; injection H as <- <-. split; [exact Hb2|]. discriminate.
Qed.

Lemma main_loop_raises_serial filename :
  forall n st fs w e fs' w',
    (forall ser0, port ser0 w <> None) ->
    main_loop float_of_line n filename st fs w = (Raise e, fs', w') ->
    e = SerialException \/ (e = OSError /\ refused fs filename = true).
Proof.
  induction n as [|n IH]; intros st fs w e fs' w' Hb H; [discriminate|].
  cbn [main_loop] in H.
  destruct (iteration float_of_line filename st fs w) as [r w1] eqn:Hit.
  destruct (iteration_bound filename st fs w r w1 Hb Hit) as (Hb1 & He).
  destruct r as [[st1 fs1]|e1|].
  - destruct (iteration_returns _ _ _ _ _ _ _ _ Hit)
      as (v & c & wa & wb & _ & _ & _ & Hfs1 & _ & Hr).
    destruct (IH _ _ _ _ _ _ Hb1 H) as [He1|[He1 Hr1]]; [left; exact He1|].
    rewrite Hfs1, log_rows_refused in Hr1. congruence.
  - injection H as <- <- <-. apply He. reflexivity.
  - discriminate.
Qed.

End MainFacts.

Lemma Forall_tl {A} (P : A -> Prop) l : Forall P l -> Forall P (tl l).
Proof. intros H. destruct l; [exact H|]. inversion H. assumption. Qed.

(** What leaves the [try] block. *)
Lemma try_block_ends float_of_line dv dc n filename fs t r fs' w1 :
  try_block float_of_line dv dc n filename fs (unbound t) = (r, fs', w1) ->
  (r = Some KeyboardInterrupt \/ r = Some (Exn SerialException)
   \/ r = Some UnicodeDecodeError \/ r = Some (Exn OSError) \/ r = None)
  /\ (r = Some UnicodeDecodeError ->
      fst (startup dv dc (unbound t)) = Return false)
  /\ (r = Some (Exn OSError) -> refused fs filename = true)
  /\ (forall longest,
        TIMEOUT <= longest ->
        device_within longest dv -> device_within longest dc -> r <> None)
  /\ (fst (startup dv dc (unbound t)) = Return true ->
      refused fs filename = false ->
      fs' = log_rows filename
              (rows_of initial_state
                 (delivered float_of_line n
                            (snd (startup dv dc (unbound t))))) fs
      /\ (r = Some KeyboardInterrupt ->
          List.length (delivered float_of_line n
                                 (snd (startup dv dc (unbound t)))) = n))
  /\ (fst (startup dv dc (unbound t)) <> Return true
      \/ refused fs filename = true -> fs' = fs).
Proof.
  unfold try_block. intros H.
  destruct (startup dv dc (unbound t)) as [s w0] eqn:Hs. cbn [fst snd].
  destruct (startup_raises dv dc t s w0 Hs) as [Hnf Hex].
  destruct s as [[|]|e|]; [| | |congruence].
  - destruct (startup_returns dv dc t w0 Hs) as (d & d' & -> & -> & Hw0).
    assert (Hb : forall ser0, port ser0 w0 <> None)
      by (rewrite Hw0; intros [|]; discriminate).
    destruct (main_loop float_of_line n filename initial_state fs w0)
      as [[o fs1] w2] eqn:Hl.
    pose proof (main_loop_delivered float_of_line filename n _ _ _ _ _ _ Hl)
      as Hd.
    assert (Hin : forall longest,
               TIMEOUT <= longest ->
               device_within longest (Some d) ->
               device_within longest (Some d') ->
               o <> OutOfFuel).
    { intros longest Hlong Hd0 Hd'.
      refine (proj1 (main_loop_within float_of_line filename longest n
                       _ _ _ _ _ _ _ Hl)).
      rewrite Hw0. split; intros s0 Hs0; injection Hs0 as <-;
        (split; [cbn; unfold TIMEOUT in *; lia|]);
        cbn [incoming]; apply Forall_tl; assumption. }
    assert (Hlog :
      (refused fs filename = false ->
       fs1 = log_rows filename
               (rows_of initial_state (delivered float_of_line n w0)) fs)
      /\ (refused fs filename = true -> fs1 = fs)).
    { split; intros Hr; rewrite Hr in Hd; apply Hd. }
    destruct o as [st'|e|]; injection H as <- <- <-.
    + split; [auto|]. split; [discriminate|]. split; [discriminate|].
      split; [discriminate|]. split.
      * intros _ Hr. split; [apply Hlog, Hr|]. intros _.
        rewrite Hr in Hd. apply Hd.
      * intros [Hne|Hr]; [congruence|apply Hlog, Hr].
    + destruct (main_loop_raises_serial float_of_line filename n _ _ _ _ _ _
                  Hb Hl) as [->|[-> Hr]].
      * split; [auto|]. split; [discriminate|]. split; [discriminate|].
        split; [discriminate|]. split.
        -- intros _ Hr. split; [apply Hlog, Hr|discriminate].
        -- intros [Hne|Hr]; [congruence|apply Hlog, Hr].
      * split; [auto 6|]. split; [discriminate|]. split; [intros _; exact Hr|].
        split; [discriminate|]. split.
        -- intros _ Hr'. congruence.
        -- intros _. apply Hlog, Hr.
    + split; [auto 6|]. split; [discriminate|]. split; [discriminate|].
      split.
      { intros longest Hlong Hd0 Hd' _.
        exact (Hin longest Hlong Hd0 Hd' eq_refl). }
      split.
      * intros _ Hr. split; [apply Hlog, Hr|discriminate].
      * intros [Hne|Hr]; [congruence|apply Hlog, Hr].
  - injection H as <- <- <-. split; [auto|].
    split; [reflexivity|]. split; [discriminate|]. split; [discriminate|].
    split; [discriminate|reflexivity].
  - injection H as <- <- <-. rewrite (Hex e eq_refl).
    split; [auto|]. split; [discriminate|]. split; [discriminate|].
    split; [discriminate|]. split; [discriminate|reflexivity].
Qed.

(** X19. How [main] ends. A [SerialException] leaves [main] only when the
    teardown itself raised it: what the ports raise before is caught. The
    other exceptions that leave it are the [UnicodeDecodeError] of an
    identity that did not decode and the [OSError] of a log file that
    cannot be written; no name is used unbound. Unless the teardown
    raised, no port is left open. When the startup succeeded and the log
    file can be written, the log has gained the rows of the run of cycles
    over what the readers returned, one row per pair of readings, and
    all [n] of them when the user stops the program after [n] iterations;
    otherwise the files are as they were. With devices that answer in no
    negative time the program does not hang. *)
Theorem main_ends_with_ports_closed :
  forall float_of_line dv dc n filename fs t e fs' w',
    main float_of_line dv dc n filename fs (unbound t) = (e, fs', w') ->
    (e = Stopped \/ e = SerialError \/ e = Escaped UnicodeDecodeError
     \/ e = Escaped (Exn OSError) \/ e = Escaped (Exn SerialException)
     \/ e = Unfinished)
    /\ (e = Escaped (Exn SerialException) ->
        fst (finally_block
               (snd (try_block float_of_line dv dc n filename fs (unbound t))))
        = Raise SerialException)
    /\ (e = Escaped UnicodeDecodeError ->
        fst (startup dv dc (unbound t)) = Return false)
    /\ (e = Escaped (Exn OSError) -> refused fs filename = true)
    /\ (e = Stopped \/ e = SerialError \/ e = Escaped UnicodeDecodeError
        \/ e = Escaped (Exn OSError) -> all_closed w')
    /\ (forall longest,
          TIMEOUT <= longest ->
          device_within longest dv -> device_within longest dc ->
          e <> Unfinished)
    /\ (fst (startup dv dc (unbound t)) = Return true ->
        refused fs filename = false ->
        fs' = log_rows filename
                (rows_of initial_state
                   (delivered float_of_line n
                              (snd (startup dv dc (unbound t))))) fs
        /\ (e = Stopped ->
            List.length (delivered float_of_line n
                                   (snd (startup dv dc (unbound t)))) = n))
    /\ (fst (startup dv dc (unbound t)) <> Return true
        \/ refused fs filename = true -> fs' = fs).
Proof.
  intros f dv dc n filename fs t e fs' w'. unfold main. intros H.
  destruct (try_block f dv dc n filename fs (unbound t))
    as [[r fs1] w1] eqn:Ht. cbn [snd].
  destruct (try_block_ends f dv dc n filename fs t r fs1 w1 Ht)
    as (Hr & Hdec & Hos & Hfuel & Hlog & Hsame).
  destruct r as [r|].
  2:{ injection H as <- <- <-. split; [auto 7|].
      split; [discriminate|]. split; [discriminate|]. split; [discriminate|].
      split; [intros [He|[He|[He|He]]]; discriminate He|].
      split; [intros longest Hl Hd Hd' _;
              exact (Hfuel longest Hl Hd Hd' eq_refl)|].
      split; [|exact Hsame].
      intros Hs Hrf. split; [apply Hlog; assumption|discriminate]. }
  destruct (finally_block w1) as [rf w2] eqn:Hf.
  destruct (finally_block_ends w1 rf w2 Hf) as (Hrf & _ & _ & Hclosed).
  destruct Hrf as [-> | ->]; injection H as <- <- <-.
  - assert (Hcase :
      (r = KeyboardInterrupt /\ handled r = Stopped)
      \/ (r = Exn SerialException /\ handled r = SerialError)
      \/ (r = UnicodeDecodeError /\ handled r = Escaped UnicodeDecodeError)
      \/ (r = Exn OSError /\ handled r = Escaped (Exn OSError))).
    { destruct Hr as [Hr|[Hr|[Hr|[Hr|Hr]]]]; try discriminate Hr;
        injection Hr as ->; cbn; auto 6. }
    split.
    { destruct Hcase as [[_ ->]|[[_ ->]|[[_ ->]|[_ ->]]]]; auto 7. }
    split.
    { destruct Hcase as [[_ ->]|[[_ ->]|[[_ ->]|[_ ->]]]]; discriminate. }
    split.
    { intros He. apply Hdec.
      destruct Hcase as [[-> Hh]|[[-> Hh]|[[-> Hh]|[-> Hh]]]];
        rewrite Hh in He; try discriminate He; reflexivity. }
    split.
    { intros He. apply Hos.
      destruct Hcase as [[-> Hh]|[[-> Hh]|[[-> Hh]|[-> Hh]]]];
        rewrite Hh in He; try discriminate He; reflexivity. }
    split; [intros _; apply Hclosed; reflexivity|].
    split.
    { intros longest Hl Hd Hd'.
      destruct Hcase as [[_ ->]|[[_ ->]|[[_ ->]|[_ ->]]]]; discriminate. }
    split; [|exact Hsame].
    intros Hs Hrf. destruct (Hlog Hs Hrf) as [Hfs Hn]. split; [exact Hfs|].
    intros He. apply Hn.
    destruct Hcase as [[-> Hh]|[[-> Hh]|[[-> Hh]|[-> Hh]]]];
      rewrite Hh in He; try discriminate He; reflexivity.
  - split; [auto 7|]. split; [reflexivity|].
    split; [discriminate|]. split; [discriminate|].
    split; [intros [He|[He|[He|He]]]; discriminate He|].
    split; [discriminate|].
    split; [|exact Hsame].
    intros Hs Hrf. split; [apply Hlog; assumption|discriminate].
Qed.

(** X20. When the identity line of the voltage meter is not well-formed
    UTF-8, [main] ends with the [UnicodeDecodeError] uncaught. The current
    meter is not asked for its identity, no setup command and no query is
    sent, and nothing is logged; both meters still get the display command
    and both ports are closed. *)
Theorem identity_that_does_not_decode :
  forall float_of_line d d' p rest line n filename fs t,
    incoming d = p :: rest -> result p = Line line ->
    Utf8.decodes line = false ->
    write_fails d = false -> close_fails d = false ->
    write_fails d' = false -> close_fails d' = false ->
    main float_of_line (Some d) (Some d') n filename fs (unbound t)
    = (Escaped UnicodeDecodeError, fs,
       mkWorld (t + 2500000 + delay p)
         (Some (mkSerial false TIMEOUT rest
                         (written d ++ [IDN; DISP_ENAB]) false false))
         (Some (mkSerial false TIMEOUT (incoming d')
                         (written d' ++ [DISP_ENAB]) false false))).
Proof.
  intros f [o pt inc wr wf cf] [o' pt' inc' wr' wf' cf'] [dl res] rest line
         n filename fs t Hi Hres Hdec Hwf Hcf Hwf' Hcf'.
  cbn in Hi, Hres, Hwf, Hcf, Hwf', Hcf'. subst.
  unfold main, try_block.
  assert (Hs : startup (Some (mkSerial o pt ({| delay := dl; result := Line line |} :: rest) wr false false))
                       (Some (mkSerial o' pt' inc' wr' false false)) (unbound t)
               = (Return false,
                  mkWorld (t + 2500000 + dl)
                    (Some (mkSerial true TIMEOUT rest (wr ++ [IDN]) false false))
                    (Some (mkSerial true TIMEOUT inc' wr' false false)))).
  { cbn -[IDN Utf8.decodes Z.add TIMEOUT]. rewrite Hdec.
    unfold ret. cbv [with_incoming with_written is_open port_timeout incoming
           written write_fails close_fails].
    do 2 f_equal. lia. }
  rewrite Hs. cbn -[IDN DISP_ENAB Z.add TIMEOUT].
  rewrite <- app_assoc. reflexivity.
Qed.

(** The voltage meter answers with a byte that cannot start a character. *)
Lemma identity_that_does_not_decode_witness :
  main PyFloat.float_of_line
       (Some (opened [mkPoll 20000 (Line ["255"%byte])]))
       (Some (meter "OWON,XDM1041" "+1.0E-02")) 2 default_filename
       empty_disk (unbound 0)
  = (Escaped UnicodeDecodeError, empty_disk,
     mkWorld 2520000
       (Some (mkSerial false TIMEOUT [] [IDN; DISP_ENAB] false false))
       (Some (mkSerial false TIMEOUT
                [answer 20000 "OWON,XDM1041"; answer 30000 "+1.0E-02"]
                [DISP_ENAB] false false))).
Proof.
  exact (identity_that_does_not_decode PyFloat.float_of_line
           (opened [mkPoll 20000 (Line ["255"%byte])])
           (meter "OWON,XDM1041" "+1.0E-02")
           (mkPoll 20000 (Line ["255"%byte])) [] ["255"%byte]
           2 default_filename empty_disk 0
           eq_refl eq_refl eq_refl eq_refl eq_refl eq_refl eq_refl).
Defined.

(** Both meters identify themselves. *)
Lemma startup_sends_commands_in_order_witness :
  exists d d',
    Some (meter "OWON,XDM1041" "+1.5E+00") = Some d
    /\ Some (meter "OWON,XDM1041" "+1.0E-02") = Some d'
    /\ mkWorld 4840000
         (Some (mkSerial true TIMEOUT [answer 30000 "+1.5E+00"]
                  [IDN; ECHO_OFF; FUNC_VOLT_DC; VOLT_DC_RANG_20] false false))
         (Some (mkSerial true TIMEOUT [answer 30000 "+1.0E-02"]
                  [IDN; ECHO_OFF; FUNC_CURR_DC; CURR_DC_RANG_002] false false))
       = mkWorld (0 + 4800000 + first_read d + first_read d')
           (Some (mkSerial true TIMEOUT (tl (incoming d))
                    (written d ++ [IDN; ECHO_OFF; FUNC_VOLT_DC;
                                   VOLT_DC_RANG_20])
                    false (close_fails d)))
           (Some (mkSerial true TIMEOUT (tl (incoming d'))
                    (written d' ++ [IDN; ECHO_OFF; FUNC_CURR_DC;
                                    CURR_DC_RANG_002])
                    false (close_fails d'))).
Proof.
  exact (startup_sends_commands_in_order
           (Some (meter "OWON,XDM1041" "+1.5E+00"))
           (Some (meter "OWON,XDM1041" "+1.0E-02")) 0 _ eq_refl).
Defined.

Lemma bench_session :
  main PyFloat.float_of_line
       (Some (meter "OWON,XDM1041" "+1.5E+00"))
       (Some (meter "OWON,XDM1041" "+1.0E-02")) 1 default_filename
       empty_disk (unbound 0)
  = (Stopped,
     log_rows default_filename
       (combine [5300000] (samples initial_state [(Some 1.5, Some 0.01)]%float))
       empty_disk,
     mkWorld 5840000
       (Some (mkSerial false TIMEOUT []
                [IDN; ECHO_OFF; FUNC_VOLT_DC; VOLT_DC_RANG_20; FETCH; DISP_ENAB]
                false false))
       (Some (mkSerial false TIMEOUT []
                [IDN; ECHO_OFF; FUNC_CURR_DC; CURR_DC_RANG_002; FETCH; DISP_ENAB]
                false false))).
Proof. vm_compute. reflexivity. Qed.

(** One cycle on the bench, then Ctrl-C. *)
Lemma main_ends_with_ports_closed_witness :
  all_closed
    (mkWorld 5840000
       (Some (mkSerial false TIMEOUT []
                [IDN; ECHO_OFF; FUNC_VOLT_DC; VOLT_DC_RANG_20; FETCH;
                 DISP_ENAB] false false))
       (Some (mkSerial false TIMEOUT []
                [IDN; ECHO_OFF; FUNC_CURR_DC; CURR_DC_RANG_002; FETCH;
                 DISP_ENAB] false false)))
  /\ log_rows default_filename
       (combine [5300000] (samples initial_state [(Some 1.5, Some 0.01)]%float))
       empty_disk
     = log_rows default_filename
         (rows_of initial_state
            (delivered PyFloat.float_of_line 1
               (snd (startup (Some (meter "OWON,XDM1041" "+1.5E+00"))
                             (Some (meter "OWON,XDM1041" "+1.0E-02"))
                             (unbound 0)))))
         empty_disk.
Proof.
  pose proof (main_ends_with_ports_closed PyFloat.float_of_line
                _ _ 1 default_filename empty_disk 0 _ _ _ bench_session)
    as (_ & _ & _ & _ & Hclosed & _ & Hlog & _).
  split; [apply Hclosed; left; reflexivity|].
  apply Hlog; [vm_compute; reflexivity|reflexivity].
Defined.
